(** * Mgc-Coin: the abstract block of [lib/primitives/abstractblock.js]

    A shallow embedding of [AbstractBlock]: the header fields, the hash
    cache, the abbreviated (header-only) wire encoding and the two-phase
    verification entry point, followed by the properties the specification
    states about them.

    JavaScript values are kept dynamic ([JsVal]); a method is a state
    transformer over the receiver ([this]) that either returns or throws;
    the calls the block makes to its collaborators (the digest, the
    proof-of-work checker, the variant's body check, the console) are
    recorded in an event log, so that "is called" and "is not called" can
    be stated. *)

From Stdlib Require Import ZArith Lia List Bool.
From Stdlib Require Import Strings.String Strings.Ascii Strings.Byte.
From stdpp Require Import base option strings gmap.

Local Open Scope string_scope.
Local Open Scope Z_scope.
Local Open Scope list_scope.

(* ===================================================================== *)
(** * JavaScript values, errors and results                              *)
(* ===================================================================== *)

Module Js.

(** The values a header field, an argument or a property can hold.
    Numbers are the integer-valued doubles plus [NaN]; strings hold code
    units below 256 (what a ['binary'] string holds); a [Buffer] is its
    byte contents. *)
#[warnings="-register-all"]
Inductive JsVal : Type :=
  | JUndefined
  | JNull
  | JBool (b : bool)
  | JNum (n : Z)
  | JNaN
  | JStr (s : string)
  | JBuffer (data : list byte)
  | JObject (props : gmap string JsVal).

(** [ToBoolean]: what [if (v)], [!v] and [assert(v)] look at. *)
Definition truthy (v : JsVal) : bool :=
  match v with
  | JUndefined | JNull | JNaN => false
  | JBool b => b
  | JNum n => negb (n =? 0)
  | JStr s => negb (String.eqb s "")
  | JBuffer _ | JObject _ => true
  end.

(** [typeof v === 'string'] *)
Definition is_string (v : JsVal) : bool :=
  match v with JStr _ => true | _ => false end.

(** [v != null] (loose inequality: neither [null] nor [undefined]). *)
Definition not_nullish (v : JsVal) : bool :=
  match v with JUndefined | JNull => false | _ => true end.

(** [v === 'hex'] *)
Definition is_hex_enc (v : JsVal) : bool :=
  match v with JStr s => String.eqb s "hex" | _ => false end.

(** Property read [o.k]: a missing property, or a property of a
    primitive, reads as [undefined]; reading a property of [null] or
    [undefined] is not needed here, the callers test the object first. *)
Definition get_prop (o : JsVal) (k : string) : JsVal :=
  match o with
  | JObject props => default JUndefined (props !! k)
  | _ => JUndefined
  end.

Inductive JsError : Type :=
  | AssertionError (message : option string)
  | ReferenceError (name : string)
  | TypeError (message : string)
  | Error (message : string)
  | EncodingError (message : string).

Inductive Res (A : Type) : Type :=
  | Ok (a : A)
  | Throw (e : JsError).
Arguments Ok {A} a.
Arguments Throw {A} e.

#[global] Instance res_ret : MRet Res := fun A a => Ok a.
#[global] Instance res_bind : MBind Res := fun A B k r =>
  match r with Ok a => k a | Throw e => Throw e end.

(** [assert(cond, message)] of node's [assert] module. *)
Definition assert (cond : bool) (message : option string) : Res unit :=
  if cond then Ok tt else Throw (AssertionError message).

End Js.
Export Js.

(* ===================================================================== *)
(** * Bytes, little-endian integers and hexadecimal                       *)
(* ===================================================================== *)

Module Bytes.

Definition Z_of_byte (b : byte) : Z := Z.of_N (Byte.to_N b).

(** The low eight bits of [z], as a byte ([z & 0xff]). *)
Definition byte_of_Z (z : Z) : byte :=
  default x00 (Byte.of_N (Z.to_N (Z.land z 255))).

(** [n] bytes of [z], least significant first; bits above [8n] are
    dropped, which is the wrap-around of a fixed-width store. *)
Fixpoint le_bytes (n : nat) (z : Z) : list byte :=
  match n with
  | O => []
  | S n' => byte_of_Z z :: le_bytes n' (Z.shiftr z 8)
  end.

(** The unsigned value of a little-endian byte string. *)
Fixpoint le_value (bs : list byte) : Z :=
  match bs with
  | [] => 0
  | b :: bs' => Z.lor (Z_of_byte b) (Z.shiftl (le_value bs') 8)
  end.

(** Two's complement reading of a 32-bit pattern. *)
Definition to_int32 (u : Z) : Z :=
  if Z.testbit u 31 then u - 2 ^ 32 else u.

Definition hex_digit (n : Z) : ascii :=
  if n <? 10 then ascii_of_N (Z.to_N (48 + n)) else ascii_of_N (Z.to_N (87 + n)).

(** Value of a hexadecimal digit, either case. *)
Definition hex_value (c : ascii) : option Z :=
  let n := Z.of_N (N_of_ascii c) in
  if (48 <=? n) && (n <=? 57) then Some (n - 48)
  else if (97 <=? n) && (n <=? 102) then Some (n - 87)
  else if (65 <=? n) && (n <=? 70) then Some (n - 55)
  else None.

Definition is_lower_hex (c : ascii) : bool :=
  let n := Z.of_N (N_of_ascii c) in
  ((48 <=? n) && (n <=? 57)) || ((97 <=? n) && (n <=? 102)).

(** [buf.toString('hex')]: two lower-case digits per byte. *)
Fixpoint hex_encode (bs : list byte) : string :=
  match bs with
  | [] => ""
  | b :: bs' =>
      String (hex_digit (Z.shiftr (Z_of_byte b) 4))
        (String (hex_digit (Z.land (Z_of_byte b) 15)) (hex_encode bs'))
  end.

(** The bytes a hexadecimal string denotes; [None] when the string has
    an odd length or a character that is not a hexadecimal digit. *)
Fixpoint hex_decode (s : string) : option (list byte) :=
  match s with
  | EmptyString => Some []
  | String _ EmptyString => None
  | String c1 (String c2 s') =>
      match hex_value c1, hex_value c2, hex_decode s' with
      | Some h, Some l, Some bs => Some (byte_of_Z (Z.lor (Z.shiftl h 4) l) :: bs)
      | _, _, _ => None
      end
  end.

Fixpoint all_lower_hex (s : string) : bool :=
  match s with
  | EmptyString => true
  | String c s' => is_lower_hex c && all_lower_hex s'
  end.

End Bytes.
Export Bytes.

(* ===================================================================== *)
(** * The binary codec                                                    *)
(* ===================================================================== *)

Module Codec.

(** The writer and the reader ([utils/writer], [utils/reader]) are not
    part of the sources at hand; they are modelled from the
    specification's description of the codec (section 4.1) and of the
    wire format (section 6). A writer is the bytes written so far, a
    reader the bytes not yet consumed. *)
Abbreviation Writer := (list byte).
Abbreviation Reader := (list byte).

(** Modelled from the spec: [new WriteBuffer()] is missing; a fresh
    writer has written nothing. *)
Definition new_WriteBuffer : Writer := [].

(** Modelled from the spec: [render] is missing; it yields the single
    contiguous buffer of everything written, in order. *)
Definition render (bw : Writer) : list byte := bw.

(** Modelled from the spec: [writeU32] is missing; "unsigned 32-bit
    integers", "4 bytes", "all integers little-endian". Only a number
    can be written. *)
Definition writeU32 (value : JsVal) (bw : Writer) : Res Writer :=
  match value with
  | JNum n => Ok (bw ++ le_bytes 4 n)
  | _ => Throw (TypeError "writeU32: not a number")
  end.

(** Modelled from the spec: [write32] is missing; "signed 32-bit
    integers", "4 bytes (signed)", little-endian two's complement. *)
Definition write32 (value : JsVal) (bw : Writer) : Res Writer :=
  match value with
  | JNum n => Ok (bw ++ le_bytes 4 n)
  | _ => Throw (TypeError "write32: not a number")
  end.

(** Modelled from the spec: [writeHash] is missing; "fixed-length
    (32-byte) hash digests, hex-encoded in memory", "32 bytes" on the
    wire, "any deviation is a decode error, not a silently-truncated
    value". A digest held as a [Buffer] is written as it is. *)
Definition writeHash (value : JsVal) (bw : Writer) : Res Writer :=
  match value with
  | JStr s =>
      match hex_decode s with
      | Some bs =>
          if (length bs =? 32)%nat then Ok (bw ++ bs)
          else Throw (EncodingError "writeHash: not a 32-byte digest")
      | None => Throw (EncodingError "writeHash: not a hex string")
      end
  | JBuffer bs =>
      if (length bs =? 32)%nat then Ok (bw ++ bs)
      else Throw (EncodingError "writeHash: not a 32-byte digest")
  | _ => Throw (TypeError "writeHash: not a digest")
  end.

(** Modelled from the spec: the encoding of "variable-length integers"
    is missing, and the spec does not spell it out; the compact size of
    the Bitcoin wire format, from which this format derives, is taken:
    one byte below 0xfd, else a marker byte 0xfd, 0xfe or 0xff followed
    by 2, 4 or 8 little-endian bytes. *)
Definition varint_bytes (n : Z) : list byte :=
  if n <? 253 then [byte_of_Z n]
  else if n <=? 65535 then xfd :: le_bytes 2 n
  else if n <=? 4294967295 then xfe :: le_bytes 4 n
  else xff :: le_bytes 8 n.

(** Modelled from the spec: [writeVarint] is missing; a length is
    written as a variable-length integer, and a length is not negative. *)
Definition writeVarint (value : JsVal) (bw : Writer) : Res Writer :=
  match value with
  | JNum n =>
      if n <? 0 then Throw (EncodingError "writeVarint: negative")
      else Ok (bw ++ varint_bytes n)
  | _ => Throw (TypeError "writeVarint: not a number")
  end.

(** Modelled from the spec: [writeString] is missing; "raw byte
    strings". With the ['binary'] encoding every code unit of the string
    is one byte. *)
Definition writeString (value : JsVal) (enc : string) (bw : Writer) : Res Writer :=
  match value with
  | JStr s =>
      if String.eqb enc "binary" then Ok (bw ++ list_byte_of_string s)
      else Throw (EncodingError "writeString: encoding not modelled")
  | _ => Throw (TypeError "writeString: not a string")
  end.

(** Modelled from the spec: the reader "fails (reports a decode error)
    if the buffer is exhausted before all fields are read". *)
Definition read_bytes (n : nat) (br : Reader) : Res (list byte * Reader) :=
  if (n <=? length br)%nat then Ok (take n br, drop n br)
  else Throw (EncodingError "reader: out of bounds").

(** Modelled from the spec: [readU32] is missing; the inverse of
    [writeU32]. *)
Definition readU32 (br : Reader) : Res (JsVal * Reader) :=
  '(bs, br') ← read_bytes 4 br;
  mret (JNum (le_value bs), br').

(** Modelled from the spec: [read32] is missing; the inverse of
    [write32]. *)
Definition read32 (br : Reader) : Res (JsVal * Reader) :=
  '(bs, br') ← read_bytes 4 br;
  mret (JNum (to_int32 (le_value bs)), br').

(** Modelled from the spec: [readHash] is missing; 32 bytes, returned
    hex-encoded when the encoding is ['hex'] and as a buffer
    otherwise. *)
Definition readHash (enc : string) (br : Reader) : Res (JsVal * Reader) :=
  '(bs, br') ← read_bytes 32 br;
  mret (if String.eqb enc "hex" then JStr (hex_encode bs) else JBuffer bs, br').

(** Modelled from the spec: [readVarint] is missing; the inverse of
    [writeVarint]. *)
Definition readVarint (br : Reader) : Res (JsVal * Reader) :=
  '(b0, br1) ← read_bytes 1 br;
  let marker := le_value b0 in
  if marker =? 255 then
    '(bs, br2) ← read_bytes 8 br1; mret (JNum (le_value bs), br2)
  else if marker =? 254 then
    '(bs, br2) ← read_bytes 4 br1; mret (JNum (le_value bs), br2)
  else if marker =? 253 then
    '(bs, br2) ← read_bytes 2 br1; mret (JNum (le_value bs), br2)
  else mret (JNum marker, br1).

(** Modelled from the spec: [readString] is missing; the length read
    before it "determines exactly how many bytes to consume". *)
Definition readString (enc : string) (size : JsVal) (br : Reader) : Res (JsVal * Reader) :=
  match size with
  | JNum n =>
      if n <? 0 then Throw (EncodingError "readString: negative size")
      else if String.eqb enc "binary" then
        '(bs, br') ← read_bytes (Z.to_nat n) br;
        mret (JStr (string_of_list_byte bs), br')
      else Throw (EncodingError "readString: encoding not modelled")
  | _ => Throw (TypeError "readString: not a number")
  end.

End Codec.
Export Codec.

(* ===================================================================== *)
(** * The block entity and its world                                      *)
(* ===================================================================== *)

(** The fields the constructor creates, under the names it gives them.
    [TX] is the transaction object; of it, only [refresh()] is used. *)
Record AbstractBlock (TX : Type) : Type := mkAbstractBlock {
  version : JsVal;
  prevHash : JsVal;
  merkleRoot : JsVal;
  hashMerkleRootWithData : JsVal;
  hashMerkleRootWithPrevData : JsVal;
  time : JsVal;
  bits : JsVal;
  nonce : JsVal;
  outpointhash : JsVal;
  outpointn : JsVal;
  blocksigsize : JsVal;
  blocksig : JsVal;
  txs : option (list TX);
  groupSize : JsVal;
  prevContractData : JsVal;
  mutable : bool;
  _hash : JsVal;
  _hhash : JsVal;
  _size : JsVal;
  _witness : JsVal
}.
Arguments version {TX} _.
Arguments prevHash {TX} _.
Arguments merkleRoot {TX} _.
Arguments hashMerkleRootWithData {TX} _.
Arguments hashMerkleRootWithPrevData {TX} _.
Arguments time {TX} _.
Arguments bits {TX} _.
Arguments nonce {TX} _.
Arguments outpointhash {TX} _.
Arguments outpointn {TX} _.
Arguments blocksigsize {TX} _.
Arguments blocksig {TX} _.
Arguments txs {TX} _.
Arguments groupSize {TX} _.
Arguments prevContractData {TX} _.
Arguments mutable {TX} _.
Arguments _hash {TX} _.
Arguments _hhash {TX} _.
Arguments _size {TX} _.
Arguments _witness {TX} _.
Arguments mkAbstractBlock {TX}.

(** Field assignment, [this.f = v]. *)
Definition set_version {TX} (v : JsVal) (b : AbstractBlock TX) : AbstractBlock TX :=
  let '(mkAbstractBlock a0 a1 a2 a3 a4 a5 a6 a7 a8 a9 a10 a11 a12 a13 a14 a15 a16 a17 a18 a19) := b in
  mkAbstractBlock v a1 a2 a3 a4 a5 a6 a7 a8 a9 a10 a11 a12 a13 a14 a15 a16 a17 a18 a19.
Definition set_prevHash {TX} (v : JsVal) (b : AbstractBlock TX) : AbstractBlock TX :=
  let '(mkAbstractBlock a0 a1 a2 a3 a4 a5 a6 a7 a8 a9 a10 a11 a12 a13 a14 a15 a16 a17 a18 a19) := b in
  mkAbstractBlock a0 v a2 a3 a4 a5 a6 a7 a8 a9 a10 a11 a12 a13 a14 a15 a16 a17 a18 a19.
Definition set_merkleRoot {TX} (v : JsVal) (b : AbstractBlock TX) : AbstractBlock TX :=
  let '(mkAbstractBlock a0 a1 a2 a3 a4 a5 a6 a7 a8 a9 a10 a11 a12 a13 a14 a15 a16 a17 a18 a19) := b in
  mkAbstractBlock a0 a1 v a3 a4 a5 a6 a7 a8 a9 a10 a11 a12 a13 a14 a15 a16 a17 a18 a19.
Definition set_hashMerkleRootWithData {TX} (v : JsVal) (b : AbstractBlock TX) : AbstractBlock TX :=
  let '(mkAbstractBlock a0 a1 a2 a3 a4 a5 a6 a7 a8 a9 a10 a11 a12 a13 a14 a15 a16 a17 a18 a19) := b in
  mkAbstractBlock a0 a1 a2 v a4 a5 a6 a7 a8 a9 a10 a11 a12 a13 a14 a15 a16 a17 a18 a19.
Definition set_hashMerkleRootWithPrevData {TX} (v : JsVal) (b : AbstractBlock TX) : AbstractBlock TX :=
  let '(mkAbstractBlock a0 a1 a2 a3 a4 a5 a6 a7 a8 a9 a10 a11 a12 a13 a14 a15 a16 a17 a18 a19) := b in
  mkAbstractBlock a0 a1 a2 a3 v a5 a6 a7 a8 a9 a10 a11 a12 a13 a14 a15 a16 a17 a18 a19.
Definition set_time {TX} (v : JsVal) (b : AbstractBlock TX) : AbstractBlock TX :=
  let '(mkAbstractBlock a0 a1 a2 a3 a4 a5 a6 a7 a8 a9 a10 a11 a12 a13 a14 a15 a16 a17 a18 a19) := b in
  mkAbstractBlock a0 a1 a2 a3 a4 v a6 a7 a8 a9 a10 a11 a12 a13 a14 a15 a16 a17 a18 a19.
Definition set_bits {TX} (v : JsVal) (b : AbstractBlock TX) : AbstractBlock TX :=
  let '(mkAbstractBlock a0 a1 a2 a3 a4 a5 a6 a7 a8 a9 a10 a11 a12 a13 a14 a15 a16 a17 a18 a19) := b in
  mkAbstractBlock a0 a1 a2 a3 a4 a5 v a7 a8 a9 a10 a11 a12 a13 a14 a15 a16 a17 a18 a19.
Definition set_nonce {TX} (v : JsVal) (b : AbstractBlock TX) : AbstractBlock TX :=
  let '(mkAbstractBlock a0 a1 a2 a3 a4 a5 a6 a7 a8 a9 a10 a11 a12 a13 a14 a15 a16 a17 a18 a19) := b in
  mkAbstractBlock a0 a1 a2 a3 a4 a5 a6 v a8 a9 a10 a11 a12 a13 a14 a15 a16 a17 a18 a19.
Definition set_outpointhash {TX} (v : JsVal) (b : AbstractBlock TX) : AbstractBlock TX :=
  let '(mkAbstractBlock a0 a1 a2 a3 a4 a5 a6 a7 a8 a9 a10 a11 a12 a13 a14 a15 a16 a17 a18 a19) := b in
  mkAbstractBlock a0 a1 a2 a3 a4 a5 a6 a7 v a9 a10 a11 a12 a13 a14 a15 a16 a17 a18 a19.
Definition set_outpointn {TX} (v : JsVal) (b : AbstractBlock TX) : AbstractBlock TX :=
  let '(mkAbstractBlock a0 a1 a2 a3 a4 a5 a6 a7 a8 a9 a10 a11 a12 a13 a14 a15 a16 a17 a18 a19) := b in
  mkAbstractBlock a0 a1 a2 a3 a4 a5 a6 a7 a8 v a10 a11 a12 a13 a14 a15 a16 a17 a18 a19.
Definition set_blocksigsize {TX} (v : JsVal) (b : AbstractBlock TX) : AbstractBlock TX :=
  let '(mkAbstractBlock a0 a1 a2 a3 a4 a5 a6 a7 a8 a9 a10 a11 a12 a13 a14 a15 a16 a17 a18 a19) := b in
  mkAbstractBlock a0 a1 a2 a3 a4 a5 a6 a7 a8 a9 v a11 a12 a13 a14 a15 a16 a17 a18 a19.
Definition set_blocksig {TX} (v : JsVal) (b : AbstractBlock TX) : AbstractBlock TX :=
  let '(mkAbstractBlock a0 a1 a2 a3 a4 a5 a6 a7 a8 a9 a10 a11 a12 a13 a14 a15 a16 a17 a18 a19) := b in
  mkAbstractBlock a0 a1 a2 a3 a4 a5 a6 a7 a8 a9 a10 v a12 a13 a14 a15 a16 a17 a18 a19.
Definition set_txs {TX} (v : option (list TX)) (b : AbstractBlock TX) : AbstractBlock TX :=
  let '(mkAbstractBlock a0 a1 a2 a3 a4 a5 a6 a7 a8 a9 a10 a11 a12 a13 a14 a15 a16 a17 a18 a19) := b in
  mkAbstractBlock a0 a1 a2 a3 a4 a5 a6 a7 a8 a9 a10 a11 v a13 a14 a15 a16 a17 a18 a19.
Definition set_mutable {TX} (v : bool) (b : AbstractBlock TX) : AbstractBlock TX :=
  let '(mkAbstractBlock a0 a1 a2 a3 a4 a5 a6 a7 a8 a9 a10 a11 a12 a13 a14 a15 a16 a17 a18 a19) := b in
  mkAbstractBlock a0 a1 a2 a3 a4 a5 a6 a7 a8 a9 a10 a11 a12 a13 a14 v a16 a17 a18 a19.
Definition set_hash {TX} (v : JsVal) (b : AbstractBlock TX) : AbstractBlock TX :=
  let '(mkAbstractBlock a0 a1 a2 a3 a4 a5 a6 a7 a8 a9 a10 a11 a12 a13 a14 a15 a16 a17 a18 a19) := b in
  mkAbstractBlock a0 a1 a2 a3 a4 a5 a6 a7 a8 a9 a10 a11 a12 a13 a14 a15 v a17 a18 a19.
Definition set_hhash {TX} (v : JsVal) (b : AbstractBlock TX) : AbstractBlock TX :=
  let '(mkAbstractBlock a0 a1 a2 a3 a4 a5 a6 a7 a8 a9 a10 a11 a12 a13 a14 a15 a16 a17 a18 a19) := b in
  mkAbstractBlock a0 a1 a2 a3 a4 a5 a6 a7 a8 a9 a10 a11 a12 a13 a14 a15 a16 v a18 a19.
Definition set_size {TX} (v : JsVal) (b : AbstractBlock TX) : AbstractBlock TX :=
  let '(mkAbstractBlock a0 a1 a2 a3 a4 a5 a6 a7 a8 a9 a10 a11 a12 a13 a14 a15 a16 a17 a18 a19) := b in
  mkAbstractBlock a0 a1 a2 a3 a4 a5 a6 a7 a8 a9 a10 a11 a12 a13 a14 a15 a16 a17 v a19.
Definition set_witness {TX} (v : JsVal) (b : AbstractBlock TX) : AbstractBlock TX :=
  let '(mkAbstractBlock a0 a1 a2 a3 a4 a5 a6 a7 a8 a9 a10 a11 a12 a13 a14 a15 a16 a17 a18 a19) := b in
  mkAbstractBlock a0 a1 a2 a3 a4 a5 a6 a7 a8 a9 a10 a11 a12 a13 a14 a15 a16 a17 a18 v.

(** What the block asks of the modules it requires and of the objects it
    holds: [digest.hash256], [consensus.verifyPOW] and a transaction's
    [refresh()]. None of them is part of the sources at hand, and the
    properties below hold whatever they compute. *)
Class Imports (TX : Type) : Type := {
  digest_hash256 : list byte -> list byte;
  consensus_verifyPOW : JsVal -> JsVal -> bool;
  tx_refresh : TX -> TX
}.

(** Modelled from the spec: [util.isNumber] is missing; "numeric fields
    must be valid numbers", so [NaN] and every value that is not a number
    are refused. *)
Definition util_isNumber (v : JsVal) : bool :=
  match v with JNum _ => true | _ => false end.

(** Modelled from the spec: [encoding.NULL_HASH] is missing; hashes are
    "fixed-length (32-byte) hash digests, hex-encoded in memory", the null
    hash being the all-zero digest. *)
Definition NULL_HASH : string :=
  "0000000000000000000000000000000000000000000000000000000000000000".

(** The calls that leave the block, in the order they are made. *)
Inductive Event : Type :=
  | EvHash256 (input : list byte)
  | EvVerifyPOW (hash bits : JsVal)
  | EvVerifyBody
  | EvTxRefresh (index : nat)
  | EvConsoleLog (prefix : string) (value : JsVal).

(** The receiver of a method call and the log of the calls made so far. *)
Record World (TX : Type) : Type := mkWorld {
  this : AbstractBlock TX;
  events : list Event
}.
Arguments this {TX} _.
Arguments events {TX} _.
Arguments mkWorld {TX}.

(** A method body: it runs in a world, returns or throws, and leaves a
    world behind; what was assigned before a throw stays assigned. *)
Definition M (TX A : Type) : Type := World TX -> Res A * World TX.

#[global] Instance M_ret {TX} : MRet (M TX) := fun A a w => (Ok a, w).
#[global] Instance M_bind {TX} : MBind (M TX) := fun A B k m w =>
  match m w with
  | (Ok a, w') => k a w'
  | (Throw e, w') => (Throw e, w')
  end.

Section Model.

Context {TX : Type} {imports : Imports TX}.

Definition lift {A} (r : Res A) : M TX A := fun w => (r, w).
Definition throw {A} (e : JsError) : M TX A := fun w => (Throw e, w).
Definition read {A} (f : AbstractBlock TX -> A) : M TX A :=
  fun w => (Ok (f (this w)), w).
Definition modify (f : AbstractBlock TX -> AbstractBlock TX) : M TX unit :=
  fun w => (Ok tt, mkWorld (f (this w)) (events w)).
Definition emit (e : Event) : M TX unit :=
  fun w => (Ok tt, mkWorld (this w) (events w ++ [e])).

(** [new AbstractBlock()] *)
Definition new_AbstractBlock : AbstractBlock TX := {|
  version := JNum 1;
  prevHash := JStr NULL_HASH;
  merkleRoot := JStr NULL_HASH;
  hashMerkleRootWithData := JStr NULL_HASH;
  hashMerkleRootWithPrevData := JStr NULL_HASH;
  time := JNum 0;
  bits := JNum 0;
  nonce := JNum 0;
  outpointhash := JStr NULL_HASH;
  outpointn := JNum 0;
  blocksigsize := JNum 0;
  blocksig := JNull;
  txs := None;
  groupSize := JNull;
  prevContractData := JNull;
  mutable := false;
  _hash := JNull;
  _hhash := JNull;
  _size := JNum (-1);
  _witness := JNum (-1)
|}.

(** [AbstractBlock.prototype.parseOptions] *)
Definition parseOptions (options : JsVal) : M TX unit :=
  lift (assert (truthy options) (Some "Block data is required."));;
  lift (assert (util_isNumber (get_prop options "version")) None);;
  lift (assert (is_string (get_prop options "prevHash")) None);;
  lift (assert (is_string (get_prop options "merkleRoot")) None);;
  lift (assert (is_string (get_prop options "hashMerkleRootWithData")) None);;
  lift (assert (is_string (get_prop options "hashMerkleRootWithPrevData")) None);;
  lift (assert (util_isNumber (get_prop options "time")) None);;
  lift (assert (util_isNumber (get_prop options "bits")) None);;
  lift (assert (util_isNumber (get_prop options "nonce")) None);;
  modify (set_version (get_prop options "version"));;
  modify (set_prevHash (get_prop options "prevHash"));;
  modify (set_merkleRoot (get_prop options "merkleRoot"));;
  modify (set_hashMerkleRootWithData (get_prop options "hashMerkleRootWithData"));;
  modify (set_hashMerkleRootWithPrevData (get_prop options "hashMerkleRootWithPrevData"));;
  modify (set_time (get_prop options "time"));;
  modify (set_bits (get_prop options "bits"));;
  modify (set_nonce (get_prop options "nonce"));;
  modify (set_outpointhash (get_prop options "outpointhash"));;
  modify (set_outpointn (get_prop options "outpointn"));;
  modify (set_blocksigsize (get_prop options "blocksigsize"));;
  modify (set_blocksig (get_prop options "blocksig"));;
  (if not_nullish (get_prop options "mutable")
   then modify (set_mutable (truthy (get_prop options "mutable")))
   else mret tt).

(** Evaluation of the identifier [options] inside [parseJSON]: the
    function binds [json] only, so the name is looked up in the
    enclosing scopes, given here as the map of the bindings visible
    there; an unbound name is a [ReferenceError]. *)
Definition outer_options (scope : gmap string JsVal) : M TX JsVal :=
  match scope !! "options" with
  | Some v => mret v
  | None => throw (ReferenceError "options")
  end.

(** [options.k] inside [parseJSON]. *)
Definition outer_options_dot (scope : gmap string JsVal) (k : string) : M TX JsVal :=
  o ← outer_options scope; mret (get_prop o k).

(** [AbstractBlock.prototype.parseJSON] *)
Definition parseJSON (scope : gmap string JsVal) (json : JsVal) : M TX unit :=
  o ← outer_options scope;
  lift (assert (truthy o) (Some "Block data is required."));;
  v ← outer_options_dot scope "version"; lift (assert (util_isNumber v) None);;
  v ← outer_options_dot scope "prevHash"; lift (assert (is_string v) None);;
  v ← outer_options_dot scope "merkleRoot"; lift (assert (is_string v) None);;
  v ← outer_options_dot scope "hashMerkleRootWithData"; lift (assert (is_string v) None);;
  v ← outer_options_dot scope "hashMerkleRootWithPrevData"; lift (assert (is_string v) None);;
  v ← outer_options_dot scope "time"; lift (assert (util_isNumber v) None);;
  v ← outer_options_dot scope "bits"; lift (assert (util_isNumber v) None);;
  v ← outer_options_dot scope "nonce"; lift (assert (util_isNumber v) None);;
  v ← outer_options_dot scope "version"; modify (set_version v);;
  v ← outer_options_dot scope "prevHash"; modify (set_prevHash v);;
  v ← outer_options_dot scope "merkleRoot"; modify (set_merkleRoot v);;
  v ← outer_options_dot scope "hashMerkleRootWithData"; modify (set_hashMerkleRootWithData v);;
  v ← outer_options_dot scope "hashMerkleRootWithPrevData"; modify (set_hashMerkleRootWithPrevData v);;
  v ← outer_options_dot scope "time"; modify (set_time v);;
  v ← outer_options_dot scope "bits"; modify (set_bits v);;
  v ← outer_options_dot scope "nonce"; modify (set_nonce v);;
  v ← outer_options_dot scope "outpointhash"; modify (set_outpointhash v);;
  v ← outer_options_dot scope "outpointn"; modify (set_outpointn v);;
  v ← outer_options_dot scope "blocksigsize"; modify (set_blocksigsize v);;
  v ← outer_options_dot scope "blocksig"; modify (set_blocksig v).

(** [for (let tx of this.txs) tx.refresh();], the transactions being
    numbered from [i] on. *)
Fixpoint refresh_each (i : nat) (l : list TX) : M TX (list TX) :=
  match l with
  | [] => mret []
  | tx :: l' =>
      emit (EvTxRefresh i);;
      rest ← refresh_each (S i) l';
      mret (tx_refresh tx :: rest)
  end.

(** [AbstractBlock.prototype._refresh] *)
Definition _refresh (all : JsVal) : M TX unit :=
  modify (set_hash JNull);;
  modify (set_hhash JNull);;
  modify (set_size (JNum (-1)));;
  modify (set_witness (JNum (-1)));;
  if negb (truthy all) then mret tt
  else
    t ← read txs;
    match t with
    | None => mret tt
    | Some l => l' ← refresh_each 0 l; modify (set_txs (Some l'))
    end.

(** [AbstractBlock.prototype.refresh] *)
Definition refresh (all : JsVal) : M TX unit := _refresh all.

(** [AbstractBlock.prototype.writeAbbr] *)
Definition writeAbbr (bw : Writer) : M TX Writer :=
  v ← read version; bw ← lift (writeU32 v bw);
  v ← read prevHash; bw ← lift (writeHash v bw);
  v ← read merkleRoot; bw ← lift (writeHash v bw);
  v ← read hashMerkleRootWithData; bw ← lift (writeHash v bw);
  v ← read hashMerkleRootWithPrevData; bw ← lift (writeHash v bw);
  v ← read time; bw ← lift (writeU32 v bw);
  v ← read bits; bw ← lift (writeU32 v bw);
  v ← read nonce; bw ← lift (writeU32 v bw);
  v ← read outpointhash; bw ← lift (writeHash v bw);
  v ← read outpointn; bw ← lift (write32 v bw);
  v ← read blocksigsize; bw ← lift (writeVarint v bw);
  v ← read blocksig; bw ← lift (writeString v "binary" bw);
  mret bw.

(** [AbstractBlock.prototype.abbr] *)
Definition abbr : M TX (list byte) :=
  bw ← writeAbbr new_WriteBuffer; mret (render bw).

(** The call [digest.hash256(data)]. *)
Definition call_hash256 (data : list byte) : M TX JsVal :=
  emit (EvHash256 data);; mret (JBuffer (digest_hash256 data)).

(** [hash.toString('hex')]: the hex digits of a buffer; a string is its
    own [toString]. *)
Definition toString_hex (v : JsVal) : Res JsVal :=
  match v with
  | JBuffer bs => Ok (JStr (hex_encode bs))
  | JStr s => Ok (JStr s)
  | _ => Throw (TypeError "toString('hex')")
  end.

(** [AbstractBlock.prototype.hash] *)
Definition hash (enc : JsVal) : M TX JsVal :=
  cached ← read _hash;
  h ← (if negb (truthy cached) then
         data ← abbr;
         h ← call_hash256 data;
         m ← read mutable;
         (if negb m then modify (set_hash h) else mret tt);;
         mret h
       else mret cached);
  if is_hex_enc enc then
    hcached ← read _hhash;
    if negb (truthy hcached) then
      hex ← lift (toString_hex h);
      m ← read mutable;
      (if negb m then modify (set_hhash hex) else mret tt);;
      mret hex
    else mret hcached
  else mret h.

(** [AbstractBlock.prototype.parseAbbr]; the reader left after the last
    field is returned. *)
Definition parseAbbr (br : Reader) : M TX Reader :=
  '(v, br) ← lift (readU32 br); modify (set_version v);;
  v ← read version;
  emit (EvConsoleLog "################### AbstractBlock parseAbbr version:" v);;
  '(v, br) ← lift (readHash "hex" br); modify (set_prevHash v);;
  '(v, br) ← lift (readHash "hex" br); modify (set_merkleRoot v);;
  '(v, br) ← lift (readHash "hex" br); modify (set_hashMerkleRootWithData v);;
  '(v, br) ← lift (readHash "hex" br); modify (set_hashMerkleRootWithPrevData v);;
  '(v, br) ← lift (readU32 br); modify (set_time v);;
  '(v, br) ← lift (readU32 br); modify (set_bits v);;
  '(v, br) ← lift (readU32 br); modify (set_nonce v);;
  '(v, br) ← lift (readHash "hex" br); modify (set_outpointhash v);;
  '(v, br) ← lift (read32 br); modify (set_outpointn v);;
  '(v, br) ← lift (readVarint br); modify (set_blocksigsize v);;
  v ← read blocksigsize;
  emit (EvConsoleLog "################### AbstractBlock parseAbbr this.blocksigsize:" v);;
  size ← read blocksigsize;
  '(v, br) ← lift (readString "binary" size br); modify (set_blocksig v);;
  mret br.

(** [AbstractBlock.prototype.verifyPOW] *)
Definition verifyPOW : M TX bool :=
  h ← hash JUndefined;
  b ← read bits;
  emit (EvVerifyPOW h b);;
  mret (consensus_verifyPOW h b).

(** [AbstractBlock.prototype.verifyBody], the method a variant is to
    replace. *)
Definition verifyBody : M TX bool :=
  throw (Error "Abstract method.").

(** The call [this.verifyBody()]: whichever body check the receiver
    has, the variant's or the inherited one. *)
Definition call_verifyBody (impl : M TX bool) : M TX bool :=
  emit EvVerifyBody;; impl.

(** [AbstractBlock.prototype.verify], for a receiver whose body check
    is [impl]. *)
Definition verify (impl : M TX bool) : M TX bool :=
  pow ← verifyPOW;
  if negb pow then mret false
  else
    body ← call_verifyBody impl;
    if negb body then mret false
    else mret true.

End Model.

(** What the two remaining methods ask of the modules required:
    [util.revHex] and the [BLOCK] tag of [InvItem.types]. Neither is part
    of the sources at hand; the properties below hold whatever they
    are. *)
Class Helpers : Type := {
  util_revHex : JsVal -> Res JsVal;
  InvItem_types_BLOCK : JsVal
}.

(** Modelled from the spec: [InvItem] is missing; "a typed handle (kind +
    hash)", built by "an inventory-item constructor taking a type tag and
    a hex hash". *)
Record InvItem : Type := new_InvItem {
  inv_type : JsVal;
  inv_hash : JsVal
}.

Section ModelMore.

Context {TX : Type} {imports : Imports TX} {helpers : Helpers}.

(** [AbstractBlock.prototype.rhash] *)
Definition rhash : M TX JsVal :=
  h ← hash (JStr "hex");
  lift (util_revHex h).

(** [AbstractBlock.prototype.toInv] *)
Definition toInv : M TX InvItem :=
  h ← hash (JStr "hex");
  mret (new_InvItem InvItem_types_BLOCK h).

End ModelMore.

(* ===================================================================== *)
(** * Vocabulary of the properties                                        *)
(* ===================================================================== *)

(** The result and the world a method call leaves. *)
Definition result {TX A} (m : M TX A) (w : World TX) : Res A := fst (m w).
Definition after {TX A} (m : M TX A) (w : World TX) : World TX := snd (m w).

(** Two entities agree on the twelve header fields. *)
Definition same_header {TX} (a b : AbstractBlock TX) : Prop :=
  version a = version b /\ prevHash a = prevHash b /\
  merkleRoot a = merkleRoot b /\
  hashMerkleRootWithData a = hashMerkleRootWithData b /\
  hashMerkleRootWithPrevData a = hashMerkleRootWithPrevData b /\
  time a = time b /\ bits a = bits b /\ nonce a = nonce b /\
  outpointhash a = outpointhash b /\ outpointn a = outpointn b /\
  blocksigsize a = blocksigsize b /\ blocksig a = blocksig b.

(** Two entities agree on the four derived cache slots. *)
Definition same_caches {TX} (a b : AbstractBlock TX) : Prop :=
  _hash a = _hash b /\ _hhash a = _hhash b /\
  _size a = _size b /\ _witness a = _witness b.

(** Two entities agree on what is neither a header field nor a cache
    slot. *)
Definition same_rest {TX} (a b : AbstractBlock TX) : Prop :=
  txs a = txs b /\ groupSize a = groupSize b /\
  prevContractData a = prevContractData b /\ mutable a = mutable b.

(** An unsigned 32-bit number. *)
Definition is_u32 (v : JsVal) : bool :=
  match v with JNum n => (0 <=? n) && (n <? 2 ^ 32) | _ => false end.

(** A signed 32-bit number. *)
Definition is_i32 (v : JsVal) : bool :=
  match v with JNum n => (- 2 ^ 31 <=? n) && (n <? 2 ^ 31) | _ => false end.

(** A 32-byte digest as it is held in memory: 64 lower-case hexadecimal
    digits, the form in which the reader hands digests out. *)
Definition is_hash (v : JsVal) : bool :=
  match v with
  | JStr s => (String.length s =? 64)%nat && all_lower_hex s
  | _ => false
  end.

(** A signature and its announced size: a string of bytes, and its true
    length, a length that fits a number. *)
Definition is_sig (size sig : JsVal) : bool :=
  match size, sig with
  | JNum n, JStr s => (n =? Z.of_nat (String.length s)) && (n <? 2 ^ 53)
  | _, _ => false
  end.

(** A validly constructed header: every one of the twelve fields is
    well-formed for its wire type. *)
Definition valid_header {TX} (b : AbstractBlock TX) : bool :=
  is_u32 (version b) && is_hash (prevHash b) && is_hash (merkleRoot b) &&
  is_hash (hashMerkleRootWithData b) && is_hash (hashMerkleRootWithPrevData b) &&
  is_u32 (time b) && is_u32 (bits b) && is_u32 (nonce b) &&
  is_hash (outpointhash b) && is_i32 (outpointn b) &&
  is_sig (blocksigsize b) (blocksig b).

(** The checks [parseOptions] makes before it assigns anything. *)
Definition options_checked (options : JsVal) : bool :=
  truthy options &&
  util_isNumber (get_prop options "version") &&
  is_string (get_prop options "prevHash") &&
  is_string (get_prop options "merkleRoot") &&
  is_string (get_prop options "hashMerkleRootWithData") &&
  is_string (get_prop options "hashMerkleRootWithPrevData") &&
  util_isNumber (get_prop options "time") &&
  util_isNumber (get_prop options "bits") &&
  util_isNumber (get_prop options "nonce").

(** What a field contributes to the wire: the four little-endian bytes
    of a number (an unsigned and a signed 32-bit write store the same
    two's complement bytes), the 32 bytes of a digest, the compact size of
    a number, the bytes of a string. *)
Definition wire_u32 (v : JsVal) (f : list byte) : Prop :=
  exists n, v = JNum n /\ f = le_bytes 4 n /\ le_value f = n mod 2 ^ 32.

Definition wire_i32 (v : JsVal) (f : list byte) : Prop :=
  exists n, v = JNum n /\ f = le_bytes 4 n /\
    (- 2 ^ 31 <= n < 2 ^ 31 -> to_int32 (le_value f) = n).

Definition wire_hash (v : JsVal) (f : list byte) : Prop :=
  length f = 32%nat /\
  (v = JBuffer f \/ exists s, v = JStr s /\ hex_decode s = Some f).

Definition wire_varint (v : JsVal) (f : list byte) : Prop :=
  exists n, v = JNum n /\ 0 <= n /\ f = varint_bytes n.

Definition wire_bytes (v : JsVal) (f : list byte) : Prop :=
  exists s, v = JStr s /\ f = list_byte_of_string s.

(** A body that leaves the world as it found it. *)
Definition unchanged {TX A} (m : M TX A) : Prop := forall w, after m w = w.

(** A body that keeps an observation [f] of the receiver. *)
Definition keeps {TX A B} (f : AbstractBlock TX -> B) (m : M TX A) : Prop :=
  forall w, f (this (after m w)) = f (this w).

(** A body that only appends to the log, and only events in [P]. *)
Definition logs {TX A} (P : Event -> Prop) (m : M TX A) : Prop :=
  forall w, exists evs, events (after m w) = events w ++ evs /\ Forall P evs.

(** A call of one of the methods of the entity, by a caller that goes on
    with the world the call left, whether it returned or threw. *)
Inductive Call : Type :=
  | CallHash (enc : JsVal)
  | CallVerifyPOW
  | CallParseAbbr (br : list byte)
  | CallParseOptions (options : JsVal)
  | CallParseJSON (scope : gmap string JsVal) (json : JsVal)
  | CallRefresh (all : JsVal).

Definition call {TX} {imports : Imports TX} (c : Call) (w : World TX) : World TX :=
  match c with
  | CallHash enc => after (hash enc) w
  | CallVerifyPOW => after verifyPOW w
  | CallParseAbbr br => after (parseAbbr br) w
  | CallParseOptions options => after (parseOptions options) w
  | CallParseJSON scope json => after (parseJSON scope json) w
  | CallRefresh all => after (refresh all) w
  end.

(** A sequence of calls, first to last. *)
Definition calls {TX} {imports : Imports TX} (cs : list Call) (w : World TX) : World TX :=
  fold_left (fun w c => call c w) cs w.

Definition is_refresh (c : Call) : bool :=
  match c with CallRefresh _ => true | _ => false end.

Definition is_parseOptions (c : Call) : bool :=
  match c with CallParseOptions _ => true | _ => false end.

(** The event [e] does not occur in [evs]. *)
Definition never (e : Event) (evs : list Event) : Prop := ~ In e evs.

(** A use of the entity: one of the calls above, or a call of [rhash] or
    of [toInv]. *)
Inductive Use : Type :=
  | UseCall (c : Call)
  | UseRhash
  | UseToInv.

Definition use {TX} {imports : Imports TX} {helpers : Helpers}
    (u : Use) (w : World TX) : World TX :=
  match u with
  | UseCall c => call c w
  | UseRhash => after rhash w
  | UseToInv => after toInv w
  end.

(** A sequence of uses, first to last. *)
Definition uses {TX} {imports : Imports TX} {helpers : Helpers}
    (us : list Use) (w : World TX) : World TX :=
  fold_left (fun w u => use u w) us w.

(** A use that neither refreshes the entity nor gives it new options. *)
Definition is_plain_use (u : Use) : bool :=
  match u with
  | UseCall c => negb (is_refresh c) && negb (is_parseOptions c)
  | _ => true
  end.

(** The calls of the digest in a log, and their number. *)
Definition is_hash256 (e : Event) : bool :=
  match e with EvHash256 _ => true | _ => false end.

Definition digest_calls (evs : list Event) : nat :=
  length (List.filter is_hash256 evs).

(** The two hash slots agree: both are empty, or [_hash] holds a digest
    and [_hhash] is empty or holds the hex digits of that digest. *)
Definition caches_consistent {TX} (b : AbstractBlock TX) : Prop :=
  (_hash b = JNull /\ _hhash b = JNull) \/
  exists d, _hash b = JBuffer d /\
            (_hhash b = JNull \/ _hhash b = JStr (hex_encode d)).

(** The map on results. *)
Definition res_map {A B} (f : A -> B) (r : Res A) : Res B :=
  match r with Ok a => Ok (f a) | Throw e => Throw e end.

(* ===================================================================== *)
(** * Concrete collaborators and inputs                                   *)
(* ===================================================================== *)

Module Samples.

(** A transaction reduced to what [refresh()] clears: whether its own
    caches are filled. *)
Definition SampleTx : Type := bool.

(** A stand-in for the digest, used in examples only: the exclusive
    or of the 32-byte blocks of the input, the last one padded with
    zeros. *)
Fixpoint xor_into (acc data : list byte) : list byte :=
  match acc, data with
  | a :: acc', d :: data' =>
      byte_of_Z (Z.lxor (Z_of_byte a) (Z_of_byte d)) :: xor_into acc' data'
  | _, _ => acc
  end.

Fixpoint xor_blocks (fuel : nat) (acc data : list byte) : list byte :=
  match fuel, data with
  | S fuel', _ :: _ => xor_blocks fuel' (xor_into acc data) (drop 32 data)
  | _, _ => acc
  end.

Definition sample_digest (data : list byte) : list byte :=
  xor_blocks (length data) (repeat x00 32) data.

(** Modelled from the spec: the target a compact [bits] value denotes,
    "a byte exponent and a 3-byte mantissa", with its sign bit. *)
Definition compact_target (compact : Z) : Z :=
  let exponent := Z.shiftr compact 24 in
  let negative := Z.testbit compact 23 in
  let mantissa := Z.land compact 8388607 in
  let num :=
    if exponent <=? 3 then Z.shiftr mantissa (8 * (3 - exponent))
    else Z.shiftl mantissa (8 * (exponent - 3)) in
  if negative then - num else num.

(** Modelled from the spec: [consensus.verifyPOW] is missing; "returns
    true iff that integer is less than or equal to the target and the
    target itself is non-negative, non-overflowing, and non-zero", the
    hash being stored little-endian. *)
Definition sample_verifyPOW (h bits : JsVal) : bool :=
  match h, bits with
  | JBuffer bs, JNum compact =>
      let target := compact_target compact in
      (0 <? target) && (target <? 2 ^ 256) && (le_value bs <=? target)
  | _, _ => false
  end.

#[export] Instance sample_imports : Imports SampleTx := {|
  digest_hash256 := sample_digest;
  consensus_verifyPOW := sample_verifyPOW;
  tx_refresh := fun _ => false
|}.

Definition hash_aa : string :=
  "aaaaaaaaaaaaaaaaaaaaaaaaaaaaaaaaaaaaaaaaaaaaaaaaaaaaaaaaaaaaaaaa".
Definition hash_0f : string :=
  "0f0f0f0f0f0f0f0f0f0f0f0f0f0f0f0f0f0f0f0f0f0f0f0f0f0f0f0f0f0f0f0f".

(** A header with every field well-formed and a three-byte signature;
    [bits] is the easiest compact target, 0x207fffff. *)
Definition sample_block : AbstractBlock SampleTx := {|
  version := JNum 2;
  prevHash := JStr NULL_HASH;
  merkleRoot := JStr hash_aa;
  hashMerkleRootWithData := JStr hash_0f;
  hashMerkleRootWithPrevData := JStr NULL_HASH;
  time := JNum 1530000000;
  bits := JNum 545259519;
  nonce := JNum 4294967295;
  outpointhash := JStr hash_aa;
  outpointn := JNum (-1);
  blocksigsize := JNum 3;
  blocksig := JStr "sig";
  txs := Some [true; true];
  groupSize := JNull;
  prevContractData := JNull;
  mutable := false;
  _hash := JNull;
  _hhash := JNull;
  _size := JNum (-1);
  _witness := JNum (-1)
|}.

(** The same header with [bits] zero, a target no hash meets. *)
Definition sample_block_no_pow : AbstractBlock SampleTx :=
  set_bits (JNum 0) sample_block.

(** The same header in an entity that is still being assembled. *)
Definition sample_block_mutable : AbstractBlock SampleTx :=
  set_mutable true sample_block.

(** Another header: the same fields but for the version. *)
Definition other_block : AbstractBlock SampleTx :=
  set_version (JNum 3) sample_block.

Definition sample_world : World SampleTx := mkWorld sample_block [].
Definition sample_world_mutable : World SampleTx := mkWorld sample_block_mutable [].
Definition other_world : World SampleTx := mkWorld other_block [].
Definition fresh_world : World SampleTx := mkWorld new_AbstractBlock [].

(** The bytes of the other header. *)
Definition other_bytes : list byte :=
  match result abbr other_world with Ok data => data | Throw _ => [] end.
Definition sample_world_no_pow : World SampleTx := mkWorld sample_block_no_pow [].

(** A headers-only variant: there is no body, the check is vacuous. *)
Definition headers_verifyBody : M SampleTx bool := mret true.

(** A full options object. *)
Definition sample_options : JsVal :=
  JObject (<["version" := JNum 2]> (<["prevHash" := JStr NULL_HASH]>
    (<["merkleRoot" := JStr hash_aa]> (<["hashMerkleRootWithData" := JStr hash_0f]>
    (<["hashMerkleRootWithPrevData" := JStr NULL_HASH]> (<["time" := JNum 1530000000]>
    (<["bits" := JNum 545259519]> (<["nonce" := JNum 7]>
    (<["outpointhash" := JStr hash_aa]> (<["outpointn" := JNum 0]>
    (<["blocksigsize" := JNum 3]> (<["blocksig" := JStr "sig"]> ∅)))))))))))).

(** The same options with another nonce. *)
Definition sample_options_renonced : JsVal :=
  match sample_options with
  | JObject props => JObject (<["nonce" := JNum 8]> props)
  | v => v
  end.

(** The same options, asking for a mutable entity with another nonce. *)
Definition sample_options_mutable : JsVal :=
  match sample_options with
  | JObject props => JObject (<["mutable" := JBool true]> (<["nonce" := JNum 8]> props))
  | v => v
  end.

(** Options whose four hash fields are strings but no digests, and
    which name neither the outpoint nor the signature. *)
Definition sloppy_options : JsVal :=
  JObject (<["version" := JNum 1]> (<["prevHash" := JStr "zz"]>
    (<["merkleRoot" := JStr ""]> (<["hashMerkleRootWithData" := JStr "00"]>
    (<["hashMerkleRootWithPrevData" := JStr "not a hash"]> (<["time" := JNum 0]>
    (<["bits" := JNum 0]> (<["nonce" := JNum 0]> ∅)))))))).

(** A stand-in for [util.revHex], used in examples only: the pairs of
    characters of a string in reverse order. *)
Fixpoint rev_pairs (s acc : string) : string :=
  match s with
  | String c1 (String c2 s') => rev_pairs s' (String c1 (String c2 acc))
  | _ => acc
  end.

#[export] Instance sample_helpers : Helpers := {|
  util_revHex := fun v =>
    match v with
    | JStr s => Ok (JStr (rev_pairs s ""))
    | _ => Throw (AssertionError None)
    end;
  InvItem_types_BLOCK := JNum 2
|}.

(** The sample header, but for [bits]: another header with the easiest
    target replaced by the value 1, a target of zero. *)
Definition rebits_block : AbstractBlock SampleTx :=
  set_bits (JNum 1) sample_block.
Definition rebits_world : World SampleTx := mkWorld rebits_block [].
Definition rebits_bytes : list byte :=
  match result abbr rebits_world with Ok data => data | Throw _ => [] end.

(** The bytes of the sample header. *)
Definition sample_bytes : list byte :=
  match result abbr sample_world with Ok data => data | Throw _ => [] end.

End Samples.

(* ===================================================================== *)
(** * Facts about bytes and the codec                                     *)
(* ===================================================================== *)

Section BytesFacts.

Lemma land_255_range (z : Z) : 0 <= Z.land z 255 < 256.
Proof.
  change 255 with (Z.ones 8). rewrite Z.land_ones by lia.
  apply Z.mod_pos_bound. lia.
Qed.

Lemma land_255_small (z : Z) : 0 <= z < 256 -> Z.land z 255 = z.
Proof.
  intros Hz. change 255 with (Z.ones 8). rewrite Z.land_ones by lia.
  apply Z.mod_small. exact Hz.
Qed.

Lemma Z_of_byte_of_Z (z : Z) : Z_of_byte (byte_of_Z z) = Z.land z 255.
Proof.
  unfold byte_of_Z, Z_of_byte.
  pose proof (land_255_range z) as Hr.
  destruct (Byte.of_N (Z.to_N (Z.land z 255))) as [y|] eqn:E.
  - apply Byte.to_of_N in E. cbn. rewrite E. lia.
  - apply Byte.of_N_None_iff in E. lia.
Qed.

Lemma length_le_bytes (n : nat) (z : Z) : length (le_bytes n z) = n.
Proof.
  revert z. induction n as [|n IH]; intros z; cbn; [reflexivity|].
  now rewrite IH.
Qed.

Lemma le_value_le_bytes (n : nat) (z : Z) :
  le_value (le_bytes n z) = z mod 2 ^ (8 * Z.of_nat n).
Proof.
  revert z. induction n as [|n IH]; intros z.
  - cbn. now rewrite Z.mod_1_r.
  - cbn [le_bytes le_value]. rewrite IH, Z_of_byte_of_Z.
    apply Z.bits_inj'. intros i Hi.
    rewrite Z.lor_spec.
    replace (8 * Z.of_nat (S n)) with (8 * Z.of_nat n + 8) by lia.
    rewrite <- !Z.land_ones by lia.
    rewrite !Z.land_spec.
    destruct (Z.ltb_spec i 8) as [Hlt|Hge].
    + rewrite Z.shiftl_spec_low by lia.
      change 255 with (Z.ones 8).
      rewrite !Z.ones_spec_low by lia. now rewrite orb_false_r.
    + rewrite Z.shiftl_spec by lia. rewrite Z.land_spec.
      change 255 with (Z.ones 8).
      rewrite (Z.ones_spec_high 8 i) by lia.
      rewrite andb_false_r, orb_false_l.
      rewrite Z.shiftr_spec by lia.
      replace (i - 8 + 8) with i by lia.
      f_equal.
      destruct (Z.ltb_spec i (8 * Z.of_nat n + 8)) as [H1|H1].
      * rewrite !Z.ones_spec_low by lia. reflexivity.
      * rewrite !Z.ones_spec_high by lia. reflexivity.
Qed.

Lemma le_value_le_bytes_small (n : nat) (z : Z) :
  0 <= z < 2 ^ (8 * Z.of_nat n) -> le_value (le_bytes n z) = z.
Proof.
  intros Hz. rewrite le_value_le_bytes. now apply Z.mod_small.
Qed.

Lemma testbit_31 (u : Z) :
  0 <= u < 2 ^ 32 -> Z.testbit u 31 = (2 ^ 31 <=? u).
Proof.
  intros Hu. destruct (Z.leb_spec (2 ^ 31) u) as [Hge|Hlt].
  - apply Z.testbit_true; [lia|].
    change (2 ^ 31) with 2147483648 in *. change (2 ^ 32) with 4294967296 in *.
    Z.div_mod_to_equations. lia.
  - apply Z.testbit_false; [lia|].
    change (2 ^ 31) with 2147483648 in *. change (2 ^ 32) with 4294967296 in *.
    Z.div_mod_to_equations. lia.
Qed.

Lemma to_int32_wrap (n : Z) :
  - 2 ^ 31 <= n < 2 ^ 31 -> to_int32 (n mod 2 ^ 32) = n.
Proof.
  intros Hn. unfold to_int32.
  assert (Hu : 0 <= n mod 2 ^ 32 < 2 ^ 32) by (apply Z.mod_pos_bound; lia).
  rewrite testbit_31 by exact Hu.
  change (2 ^ 31) with 2147483648 in *. change (2 ^ 32) with 4294967296 in *.
  destruct (Z.leb_spec 2147483648 (n mod 4294967296)) as [Hge|Hlt];
    Z.div_mod_to_equations; lia.
Qed.

(** A lower-case hexadecimal digit is the digit of its own value. *)
Lemma hex_digit_value (c : ascii) :
  is_lower_hex c = true ->
  exists n, hex_value c = Some n /\ 0 <= n < 16 /\ hex_digit n = c.
Proof.
  destruct c as [[] [] [] [] [] [] [] []]; intros Hc;
    try (vm_compute in Hc; discriminate Hc);
    eexists; (split; [vm_compute; reflexivity | split; [lia | reflexivity]]).
Qed.

Lemma nibbles_of_byte (h l : Z) :
  0 <= h < 16 -> 0 <= l < 16 ->
  let b := Z_of_byte (byte_of_Z (Z.lor (Z.shiftl h 4) l)) in
  Z.shiftr b 4 = h /\ Z.land b 15 = l.
Proof.
  intros Hh Hl b. subst b. rewrite Z_of_byte_of_Z.
  assert (Hcase : forall x, 0 <= x < 16 ->
    x = 0 \/ x = 1 \/ x = 2 \/ x = 3 \/ x = 4 \/ x = 5 \/ x = 6 \/ x = 7 \/
    x = 8 \/ x = 9 \/ x = 10 \/ x = 11 \/ x = 12 \/ x = 13 \/ x = 14 \/ x = 15)
    by (intros; lia).
  destruct (Hcase h Hh) as [->|[->|[->|[->|[->|[->|[->|[->|[->|[->|[->|[->|[->|[->|[->| ->]]]]]]]]]]]]]]];
  destruct (Hcase l Hl) as [->|[->|[->|[->|[->|[->|[->|[->|[->|[->|[->|[->|[->|[->|[->| ->]]]]]]]]]]]]]]];
  vm_compute; split; reflexivity.
Qed.

(** Decoding a string of lower-case hexadecimal digits and encoding the
    bytes again gives the string back. *)
Lemma hex_decode_encode (s : string) :
  all_lower_hex s = true -> Nat.Even (String.length s) ->
  exists bs, hex_decode s = Some bs /\ hex_encode bs = s /\
             (2 * length bs = String.length s)%nat.
Proof.
  revert s.
  assert (Hstep : forall n s, (String.length s <= n)%nat ->
    all_lower_hex s = true -> Nat.Even (String.length s) ->
    exists bs, hex_decode s = Some bs /\ hex_encode bs = s /\
               (2 * length bs = String.length s)%nat).
  { induction n as [|n IH]; intros s Hlen Hall Hev.
    - destruct s; [|cbn in Hlen; lia]. exists []. now cbn.
    - destruct s as [|c1 [|c2 s]].
      + exists []. now cbn.
      + destruct Hev as [k Hk]. cbn in Hk. lia.
      + cbn in Hall. apply andb_prop in Hall as [H1 Hall].
        apply andb_prop in Hall as [H2 Hall].
        destruct (hex_digit_value c1 H1) as (h & Eh & Rh & Dh).
        destruct (hex_digit_value c2 H2) as (l & El & Rl & Dl).
        destruct (IH s) as (bs & Ebs & Enc & Len).
        * cbn in Hlen. lia.
        * exact Hall.
        * destruct Hev as [k Hk]. cbn in Hk. exists (k - 1)%nat. lia.
        * exists (byte_of_Z (Z.lor (Z.shiftl h 4) l) :: bs).
          cbn [hex_decode]. rewrite Eh, El, Ebs.
          split; [reflexivity|]. split.
          -- cbn [hex_encode].
             destruct (nibbles_of_byte h l Rh Rl) as [-> ->].
             now rewrite Dh, Dl, Enc.
          -- cbn [length String.length]. lia. }
  intros s. apply (Hstep (String.length s)). lia.
Qed.

Lemma hex_decode_hex_encode (bs : list byte) :
  hex_decode (hex_encode bs) = Some bs.
Proof.
  induction bs as [|b bs IH]; [reflexivity|].
  cbn [hex_encode hex_decode]. rewrite IH.
  destruct b; vm_compute; reflexivity.
Qed.

Lemma length_list_byte_of_string (s : string) :
  length (list_byte_of_string s) = String.length s.
Proof.
  unfold list_byte_of_string. rewrite List.length_map.
  induction s as [|c s IH]; cbn; [reflexivity|]. now rewrite IH.
Qed.

End BytesFacts.

Section CodecFacts.

Lemma read_bytes_app (n : nat) (bs rest : list byte) :
  length bs = n -> read_bytes n (bs ++ rest) = Ok (bs, rest).
Proof.
  intros <-. unfold read_bytes.
  rewrite List.length_app.
  destruct (Nat.leb_spec (length bs) (length bs + length rest)) as [_|Hlt]; [|lia].
  now rewrite take_app_length, drop_app_length.
Qed.

Lemma readU32_le_bytes (n : Z) (rest : list byte) :
  0 <= n < 2 ^ 32 -> readU32 (le_bytes 4 n ++ rest) = Ok (JNum n, rest).
Proof.
  intros Hn. unfold readU32.
  rewrite read_bytes_app by apply length_le_bytes.
  cbn [mbind res_bind mret res_ret].
  now rewrite le_value_le_bytes_small.
Qed.

Lemma read32_le_bytes (n : Z) (rest : list byte) :
  - 2 ^ 31 <= n < 2 ^ 31 -> read32 (le_bytes 4 n ++ rest) = Ok (JNum n, rest).
Proof.
  intros Hn. unfold read32.
  rewrite read_bytes_app by apply length_le_bytes.
  cbn [mbind res_bind mret res_ret].
  rewrite le_value_le_bytes.
  change (8 * Z.of_nat 4) with 32. now rewrite to_int32_wrap.
Qed.

Lemma readHash_hex_app (bs rest : list byte) :
  length bs = 32%nat ->
  readHash "hex" (bs ++ rest) = Ok (JStr (hex_encode bs), rest).
Proof.
  intros Hlen. unfold readHash. now rewrite read_bytes_app.
Qed.

Lemma le_value_single (b : byte) : le_value [b] = Z_of_byte b.
Proof. cbn. now rewrite Z.shiftl_0_l, Z.lor_0_r. Qed.

Lemma readVarint_varint_bytes (n : Z) (rest : list byte) :
  0 <= n < 2 ^ 64 -> readVarint (varint_bytes n ++ rest) = Ok (JNum n, rest).
Proof.
  intros Hn. unfold varint_bytes, readVarint.
  destruct (Z.ltb_spec n 253) as [H1|H1].
  - rewrite read_bytes_app by reflexivity.
    cbn [mbind res_bind mret res_ret].
    rewrite le_value_single, Z_of_byte_of_Z, land_255_small by lia.
    destruct (Z.eqb_spec n 255) as [E|_]; [lia|].
    destruct (Z.eqb_spec n 254) as [E|_]; [lia|].
    destruct (Z.eqb_spec n 253) as [E|_]; [lia|]. reflexivity.
  - destruct (Z.leb_spec n 65535) as [H2|H2].
    + change ((xfd :: le_bytes 2 n) ++ rest) with ([xfd] ++ (le_bytes 2 n ++ rest)).
      rewrite read_bytes_app by reflexivity.
      cbn [mbind res_bind mret res_ret].
      change (le_value [xfd]) with 253. cbn [Z.eqb Pos.eqb].
      rewrite read_bytes_app by apply length_le_bytes.
      cbn [mbind res_bind mret res_ret].
      rewrite le_value_le_bytes_small; [reflexivity|].
      change (2 ^ (8 * Z.of_nat 2)) with 65536. lia.
    + destruct (Z.leb_spec n 4294967295) as [H3|H3].
      * change ((xfe :: le_bytes 4 n) ++ rest) with ([xfe] ++ (le_bytes 4 n ++ rest)).
        rewrite read_bytes_app by reflexivity.
        cbn [mbind res_bind mret res_ret].
        change (le_value [xfe]) with 254. cbn [Z.eqb Pos.eqb].
        rewrite read_bytes_app by apply length_le_bytes.
        cbn [mbind res_bind mret res_ret].
        rewrite le_value_le_bytes_small; [reflexivity|].
        change (2 ^ (8 * Z.of_nat 4)) with 4294967296. lia.
      * change ((xff :: le_bytes 8 n) ++ rest) with ([xff] ++ (le_bytes 8 n ++ rest)).
        rewrite read_bytes_app by reflexivity.
        cbn [mbind res_bind mret res_ret].
        change (le_value [xff]) with 255. cbn [Z.eqb Pos.eqb].
        rewrite read_bytes_app by apply length_le_bytes.
        cbn [mbind res_bind mret res_ret].
        rewrite le_value_le_bytes_small; [reflexivity|].
        change (8 * Z.of_nat 8) with 64. lia.
Qed.

Lemma readString_binary_app (s : string) (rest : list byte) :
  readString "binary" (JNum (Z.of_nat (String.length s)))
    (list_byte_of_string s ++ rest) = Ok (JStr s, rest).
Proof.
  unfold readString.
  destruct (Z.ltb_spec (Z.of_nat (String.length s)) 0) as [Hneg|_]; [lia|].
  cbn [String.eqb Ascii.eqb Bool.eqb].
  rewrite Nat2Z.id.
  rewrite read_bytes_app by apply length_list_byte_of_string.
  cbn [mbind res_bind mret res_ret].
  now rewrite string_of_list_byte_of_string.
Qed.

(** What each write appends, and how wide it is. *)
Lemma writeU32_inv (v : JsVal) (bw out : list byte) :
  writeU32 v bw = Ok out ->
  exists n, v = JNum n /\ out = bw ++ le_bytes 4 n.
Proof.
  destruct v; cbn; intros E; try discriminate E.
  injection E as <-. eauto.
Qed.

Lemma write32_inv (v : JsVal) (bw out : list byte) :
  write32 v bw = Ok out ->
  exists n, v = JNum n /\ out = bw ++ le_bytes 4 n.
Proof.
  destruct v; cbn; intros E; try discriminate E.
  injection E as <-. eauto.
Qed.

Lemma writeHash_inv (v : JsVal) (bw out : list byte) :
  writeHash v bw = Ok out ->
  exists bs, out = bw ++ bs /\ length bs = 32%nat /\
    (v = JBuffer bs \/ exists s, v = JStr s /\ hex_decode s = Some bs).
Proof.
  destruct v; cbn; intros E; try discriminate E.
  - destruct (hex_decode s) as [bs|] eqn:D; [|discriminate E].
    destruct (Nat.eqb_spec (length bs) 32) as [L|L]; [|discriminate E].
    injection E as <-. exists bs. eauto 6.
  - destruct (Nat.eqb_spec (length data) 32) as [L|L]; [|discriminate E].
    injection E as <-. exists data. eauto.
Qed.

Lemma writeVarint_inv (v : JsVal) (bw out : list byte) :
  writeVarint v bw = Ok out ->
  exists n, v = JNum n /\ 0 <= n /\ out = bw ++ varint_bytes n.
Proof.
  destruct v; cbn; intros E; try discriminate E.
  destruct (Z.ltb_spec n 0) as [Hn|Hn]; [discriminate E|].
  injection E as <-. eauto.
Qed.

Lemma writeString_binary_inv (v : JsVal) (bw out : list byte) :
  writeString v "binary" bw = Ok out ->
  exists s, v = JStr s /\ out = bw ++ list_byte_of_string s.
Proof.
  destruct v; cbn; intros E; try discriminate E.
  injection E as <-. eauto.
Qed.

End CodecFacts.

(* ===================================================================== *)
(** * Reasoning about method bodies                                       *)
(* ===================================================================== *)

Section MonadFacts.

Context {TX : Type}.

Lemma run_bind {A B} (m : M TX A) (k : A -> M TX B) (w : World TX) :
  (m ≫= k) w =
    match m w with
    | (Ok a, w') => k a w'
    | (Throw e, w') => (Throw e, w')
    end.
Proof. reflexivity. Qed.

Lemma unchanged_ret {A} (a : A) : unchanged (mret a : M TX A).
Proof. intros w. reflexivity. Qed.

Lemma unchanged_lift {A} (r : Res A) : unchanged (lift r : M TX A).
Proof. intros w. reflexivity. Qed.

Lemma unchanged_throw {A} e : unchanged (throw e : M TX A).
Proof. intros w. reflexivity. Qed.

Lemma unchanged_read {A} (f : AbstractBlock TX -> A) : unchanged (read f).
Proof. intros w. reflexivity. Qed.

Lemma unchanged_bind {A B} (m : M TX A) (k : A -> M TX B) :
  unchanged m -> (forall a, unchanged (k a)) -> unchanged (m ≫= k).
Proof.
  intros Hm Hk w. unfold after. rewrite run_bind.
  specialize (Hm w). unfold after in Hm.
  destruct (m w) as [[a|e] w'] eqn:E; cbn in Hm; subst w'.
  - apply Hk.
  - reflexivity.
Qed.

Lemma keeps_unchanged {A B} (f : AbstractBlock TX -> B) (m : M TX A) :
  unchanged m -> keeps f m.
Proof. intros Hm w. now rewrite Hm. Qed.

Lemma keeps_emit {B} (f : AbstractBlock TX -> B) (e : Event) : keeps f (emit e).
Proof. intros w. reflexivity. Qed.

Lemma keeps_modify {B} (f : AbstractBlock TX -> B) (g : AbstractBlock TX -> AbstractBlock TX) :
  (forall b, f (g b) = f b) -> keeps f (modify g).
Proof. intros Hg w. apply Hg. Qed.

Lemma keeps_bind {A B C} (f : AbstractBlock TX -> C) (m : M TX A) (k : A -> M TX B) :
  keeps f m -> (forall a, keeps f (k a)) -> keeps f (m ≫= k).
Proof.
  intros Hm Hk w. unfold after. rewrite run_bind.
  specialize (Hm w). unfold after in Hm.
  destruct (m w) as [[a|e] w'] eqn:E; cbn in Hm.
  - rewrite <- Hm. apply Hk.
  - exact Hm.
Qed.

Lemma logs_unchanged {A} (P : Event -> Prop) (m : M TX A) :
  unchanged m -> logs P m.
Proof.
  intros Hm w. exists []. rewrite Hm, app_nil_r. split; [reflexivity|constructor].
Qed.

Lemma logs_modify (P : Event -> Prop) (g : AbstractBlock TX -> AbstractBlock TX) :
  logs P (modify g).
Proof.
  intros w. exists []. cbn. rewrite app_nil_r. split; [reflexivity|constructor].
Qed.

Lemma logs_emit (P : Event -> Prop) (e : Event) : P e -> logs P (emit e : M TX unit).
Proof.
  intros He w. exists [e]. split; [reflexivity|]. constructor; [exact He|constructor].
Qed.

Lemma logs_bind {A B} (P : Event -> Prop) (m : M TX A) (k : A -> M TX B) :
  logs P m -> (forall a, logs P (k a)) -> logs P (m ≫= k).
Proof.
  intros Hm Hk w. unfold after. rewrite run_bind.
  destruct (Hm w) as (evs1 & E1 & F1). unfold after in E1.
  destruct (m w) as [[a|e] w'] eqn:E; cbn in E1.
  - destruct (Hk a w') as (evs2 & E2 & F2). unfold after in E2.
    exists (evs1 ++ evs2). rewrite E2, E1, app_assoc. split; [reflexivity|].
    apply Forall_app. now split.
  - exists evs1. now split.
Qed.

End MonadFacts.

(** Decomposition of a method body along its binds, for the three kinds
    of frame statements. *)
Ltac step_unchanged :=
  repeat first
    [ apply unchanged_ret | apply unchanged_lift | apply unchanged_throw
    | apply unchanged_read
    | apply unchanged_bind; [|intros ?]
    | match goal with |- unchanged (let '(_, _) := ?p in _) => destruct p end
    | match goal with |- unchanged (if ?c then _ else _) => destruct c end
    | match goal with |- unchanged (match ?c with _ => _ end) => destruct c end ].

Ltac step_keeps :=
  repeat first
    [ apply keeps_emit
    | apply keeps_modify; intros []; reflexivity
    | apply keeps_bind; [|intros ?]
    | match goal with |- keeps _ (let '(_, _) := ?p in _) => destruct p end
    | match goal with |- keeps _ (if ?c then _ else _) => destruct c end
    | match goal with |- keeps _ (match ?c with _ => _ end) => destruct c end
    | apply keeps_unchanged; step_unchanged ].

Ltac step_logs :=
  repeat first
    [ apply logs_modify
    | apply logs_emit; cbn; try discriminate; auto
    | apply logs_bind; [|intros ?]
    | match goal with |- logs _ (let '(_, _) := ?p in _) => destruct p end
    | match goal with |- logs _ (if ?c then _ else _) => destruct c end
    | match goal with |- logs _ (match ?c with _ => _ end) => destruct c end
    | apply logs_unchanged; step_unchanged ].

(** Running a body down to its reads, writes and emissions. *)
Ltac run_m :=
  cbv beta iota delta
    [mbind mret M_bind M_ret read modify emit lift throw this events fst snd].

Section MethodFacts.

Context {TX : Type} {imports : Imports TX}.

Lemma writeAbbr_unchanged (bw : list byte) : unchanged (writeAbbr (TX:=TX) bw).
Proof. unfold writeAbbr. step_unchanged. Qed.

Lemma abbr_unchanged : unchanged (abbr (TX:=TX)).
Proof. unfold abbr. apply unchanged_bind; [apply writeAbbr_unchanged|]. intros a. step_unchanged. Qed.

Lemma abbr_run (w : World TX) : abbr w = (result abbr w, w).
Proof.
  pose proof (abbr_unchanged w) as E. unfold after, result in *.
  destruct (abbr w) as [r w']. cbn in *. now subst.
Qed.

(** The three ways a call [hash()] can go. *)
Lemma hash_cached (w : World TX) :
  truthy (_hash (this w)) = true ->
  hash JUndefined w = (Ok (_hash (this w)), w).
Proof.
  intros Hc. unfold hash.
  rewrite run_bind. cbn [read]. rewrite run_bind, Hc. reflexivity.
Qed.

Lemma hash_miss (w : World TX) (data : list byte) :
  truthy (_hash (this w)) = false ->
  result abbr w = Ok data ->
  let d := JBuffer (digest_hash256 data) in
  hash JUndefined w =
    (Ok d, mkWorld (if mutable (this w) then this w else set_hash d (this w))
                   (events w ++ [EvHash256 data])).
Proof.
  intros Hc Ha d. unfold hash.
  rewrite run_bind. cbn [read]. rewrite run_bind, Hc. cbn [negb].
  rewrite run_bind, abbr_run, Ha.
  unfold call_hash256. run_m.
  destruct (mutable _); reflexivity.
Qed.

Lemma hash_miss_throw (enc : JsVal) (w : World TX) e :
  truthy (_hash (this w)) = false ->
  result abbr w = Throw e ->
  hash enc w = (Throw e, w).
Proof.
  intros Hc Ha. unfold hash.
  rewrite run_bind. cbn [read]. rewrite run_bind, Hc. cbn [negb].
  rewrite run_bind, abbr_run, Ha. reflexivity.
Qed.

End MethodFacts.

(* ===================================================================== *)
(** * Verification: the two phases and the abstract body check           *)
(* ===================================================================== *)

Section Verification.

Context {TX : Type} {imports : Imports TX}.

Lemma hash_logs (enc : JsVal) : logs (fun e => e <> EvVerifyBody) (hash enc).
Proof.
  unfold hash, call_hash256.
  step_logs; apply logs_unchanged, abbr_unchanged.
Qed.

Lemma verifyPOW_logs : logs (fun e => e <> EvVerifyBody) verifyPOW.
Proof.
  unfold verifyPOW.
  apply logs_bind; [apply hash_logs|]. intros h. step_logs.
Qed.

Lemma never_of_Forall (e : Event) (evs : list Event) :
  Forall (fun x => x <> e) evs -> never e evs.
Proof.
  intros HF Hin. rewrite List.Forall_forall in HF. now apply (HF e Hin).
Qed.

(** C1. [verify()] returns true exactly when [verifyPOW()] returns true
    and [verifyBody()], called next, returns true; when [verifyPOW()]
    returns false, [verify()] returns false in the world [verifyPOW()]
    left, whatever the body check is, and no call of [verifyBody] is
    logged. *)
Theorem verify_two_phase (w : World TX) (impl : M TX bool) :
  (result (verify impl) w = Ok true <->
     result verifyPOW w = Ok true /\
     result (call_verifyBody impl) (after verifyPOW w) = Ok true) /\
  (result verifyPOW w = Ok false ->
     verify impl w = (Ok false, after verifyPOW w) /\
     exists evs, events (after (verify impl) w) = events w ++ evs /\
                 never EvVerifyBody evs).
Proof.
  destruct (verifyPOW_logs w) as (evs & Eev & Fev).
  unfold result, after in *. unfold verify. rewrite run_bind.
  destruct (verifyPOW w) as [[[|]|e] w1] eqn:Epow; cbn [fst snd negb] in *.
  - rewrite run_bind.
    destruct (call_verifyBody impl w1) as [[[|]|e] w2] eqn:Ebody; cbn [fst snd negb].
    + split; [|discriminate]. split; [intros _; now split | reflexivity].
    + split; [|discriminate]. split; [discriminate | intros [_ E]; discriminate E].
    + split; [|discriminate]. split; [discriminate | intros [_ E]; discriminate E].
  - split.
    + split; [discriminate | intros [E _]; discriminate E].
    + intros _. split; [reflexivity|].
      exists evs. split; [exact Eev | now apply never_of_Forall].
  - split; [|discriminate].
    split; [discriminate | intros [E _]; discriminate E].
Qed.

(** C6. The inherited [verifyBody()] throws [Error('Abstract method.')]
    and returns no boolean; [verify()] on a receiver that has only the
    inherited body check throws the same error once [verifyPOW()] has
    returned true. *)
Theorem verifyBody_abstract_throws (w : World TX) :
  verifyBody w = (Throw (Error "Abstract method."), w) /\
  (forall b : bool, result verifyBody w <> Ok b) /\
  (result verifyPOW w = Ok true ->
     result (verify verifyBody) w = Throw (Error "Abstract method.")).
Proof.
  split; [reflexivity|]. split; [intros b; discriminate|].
  unfold result, verify. rewrite run_bind.
  destruct (verifyPOW w) as [r w1]. cbn [fst]. intros ->. reflexivity.
Qed.

End Verification.

(* ===================================================================== *)
(** * Refreshing                                                          *)
(* ===================================================================== *)

Section Refresh.

Context {TX : Type} {imports : Imports TX}.

Lemma refresh_each_run (l : list TX) (i : nat) (w : World TX) :
  refresh_each i l w =
    (Ok (map tx_refresh l),
     mkWorld (this w) (events w ++ map EvTxRefresh (seq i (length l)))).
Proof.
  revert i w. induction l as [|tx l IH]; intros i w.
  - cbn. rewrite app_nil_r. now destruct w.
  - cbn [refresh_each]. rewrite run_bind. cbn [emit].
    rewrite run_bind, IH. cbn [this events length seq map mret M_ret].
    now rewrite <- app_assoc.
Qed.

(** The world a call [refresh(all)] leaves. *)
Lemma refresh_run (all : JsVal) (w : World TX) :
  refresh all w =
    let b := set_witness (JNum (-1)) (set_size (JNum (-1))
               (set_hhash JNull (set_hash JNull (this w)))) in
    match (if truthy all then txs (this w) else None) with
    | Some l =>
        (Ok tt, mkWorld (set_txs (Some (map tx_refresh l)) b)
                        (events w ++ map EvTxRefresh (seq 0 (length l))))
    | None => (Ok tt, mkWorld b (events w))
    end.
Proof.
  destruct w as [b evs]. destruct b as [? ? ? ? ? ? ? ? ? ? ? ? t ? ? ? ? ? ? ?].
  unfold refresh, _refresh.
  unfold mbind, M_bind, modify, read, mret, M_ret.
  cbn -[refresh_each].
  destruct (truthy all); cbn -[refresh_each]; [|reflexivity].
  destruct t as [l|]; [|reflexivity].
  rewrite refresh_each_run. reflexivity.
Qed.

Lemma refresh_empties (all : JsVal) (w : World TX) :
  _hash (this (after (refresh all) w)) = JNull /\
  mutable (this (after (refresh all) w)) = mutable (this w).
Proof.
  unfold after. rewrite refresh_run.
  destruct w as [b evs]. destruct b as [? ? ? ? ? ? ? ? ? ? ? ? t ? ? ? ? ? ? ?].
  cbn. destruct (truthy all); [destruct t|]; cbn; now split.
Qed.

(** C9. [refresh(all)] returns, sets the four cache slots to their
    empty values and keeps the twelve header fields and every other
    field but [txs]; with a truthy [all] and transactions present, every
    transaction is refreshed, once and in order; with [txs] null, or a
    falsy [all], no transaction is touched. *)
Theorem refresh_clears_caches (all : JsVal) (w : World TX) :
  let w' := after (refresh all) w in
  result (refresh all) w = Ok tt /\
  (_hash (this w') = JNull /\ _hhash (this w') = JNull /\
   _size (this w') = JNum (-1) /\ _witness (this w') = JNum (-1)) /\
  same_header (this w') (this w) /\
  (groupSize (this w') = groupSize (this w) /\
   prevContractData (this w') = prevContractData (this w) /\
   mutable (this w') = mutable (this w)) /\
  (forall l, truthy all = true -> txs (this w) = Some l ->
     txs (this w') = Some (map tx_refresh l) /\
     events w' = events w ++ map EvTxRefresh (seq 0 (length l))) /\
  (txs (this w) = None ->
     txs (this w') = None /\ events w' = events w) /\
  (truthy all = false ->
     txs (this w') = txs (this w) /\ events w' = events w).
Proof.
  unfold result, after, same_header. rewrite refresh_run.
  destruct w as [b evs]. destruct b as [? ? ? ? ? ? ? ? ? ? ? ? t ? ? ? ? ? ? ?].
  cbn.
  destruct (truthy all) eqn:Eall; [destruct t as [l|]|]; cbn;
    repeat match goal with |- _ /\ _ => split end;
    intros; simplify_eq; try done; rewrite ?app_nil_r; done.
Qed.

End Refresh.

(* ===================================================================== *)
(** * Construction from options and from JSON                             *)
(* ===================================================================== *)

Section Construction.

Context {TX : Type}.

Lemma assert_bind_true {B} (c : bool) msg (k : unit -> M TX B) (w : World TX) :
  c = true -> (lift (assert c msg) ≫= k) w = k tt w.
Proof. intros ->. reflexivity. Qed.

Lemma assert_bind_false {B} (c : bool) msg (k : unit -> M TX B) (w : World TX) :
  c = false -> (lift (assert c msg) ≫= k) w = (Throw (AssertionError msg), w).
Proof. intros ->. reflexivity. Qed.

(** C5, as the code has it. [parseOptions] checks that the options are
    truthy, that [version], [time], [bits] and [nonce] are numbers and
    that the four hash fields are strings, and nothing else. When a
    check fails it throws an assertion error before any assignment,
    the receiver staying as it was; the error carries a message for
    missing options only. When all checks pass, the twelve header
    fields are the properties of the options as they are, the outpoint
    and the signature unchecked; [mutable] follows the options if they
    say so, and the caches are not touched. *)
Theorem parseOptions_checks (options : JsVal) (w : World TX) :
  (options_checked options = false ->
     exists msg, parseOptions options w = (Throw (AssertionError msg), w) /\
       (truthy options = false -> msg = Some "Block data is required.") /\
       (truthy options = true -> msg = None)) /\
  (options_checked options = true ->
     let b' := this (after (parseOptions options) w) in
     result (parseOptions options) w = Ok tt /\
     (version b' = get_prop options "version" /\
      prevHash b' = get_prop options "prevHash" /\
      merkleRoot b' = get_prop options "merkleRoot" /\
      hashMerkleRootWithData b' = get_prop options "hashMerkleRootWithData" /\
      hashMerkleRootWithPrevData b' = get_prop options "hashMerkleRootWithPrevData" /\
      time b' = get_prop options "time" /\
      bits b' = get_prop options "bits" /\
      nonce b' = get_prop options "nonce" /\
      outpointhash b' = get_prop options "outpointhash" /\
      outpointn b' = get_prop options "outpointn" /\
      blocksigsize b' = get_prop options "blocksigsize" /\
      blocksig b' = get_prop options "blocksig") /\
     mutable b' =
       (if not_nullish (get_prop options "mutable")
        then truthy (get_prop options "mutable") else mutable (this w)) /\
     same_caches b' (this w) /\
     events (after (parseOptions options) w) = events w).
Proof.
  unfold options_checked, parseOptions, result, after.
  repeat match goal with
    | |- context [get_prop options ?k] =>
        let p := fresh "p" in set (p := get_prop options k) in *; clearbody p
    end.
  destruct (truthy options) eqn:E0; cbn [andb];
    [rewrite assert_bind_true by reflexivity
    |rewrite assert_bind_false by reflexivity;
     split; [intros _; eexists; split; [reflexivity|split; [reflexivity|discriminate]]
            |discriminate]].
  repeat match goal with
    | |- context [lift (assert ?c None)] =>
        destruct c eqn:?; cbn [andb];
        [rewrite assert_bind_true by reflexivity
        |rewrite assert_bind_false by reflexivity;
         split; [intros _; eexists; split; [reflexivity|split; [discriminate|reflexivity]]
                |discriminate]]
    end.
  split; [discriminate|]. intros _.
  destruct w as [b evs].
  destruct b as [? ? ? ? ? ? ? ? ? ? ? ? ? ? ? ? ? ? ? ?].
  unfold same_caches.
  match goal with |- context [not_nullish ?p] => destruct (not_nullish p) end;
    cbn; repeat match goal with |- _ /\ _ => split end; reflexivity.
Qed.

(** C8. [parseJSON] gives the same outcome whatever its argument is;
    where no binding of the name [options] is in scope, it throws a
    reference error and leaves the receiver as it was. *)
Theorem parseJSON_ignores_its_argument
    (scope : gmap string JsVal) (json json' : JsVal) (w : World TX) :
  parseJSON scope json w = parseJSON scope json' w /\
  (scope !! "options" = None ->
     parseJSON scope json w = (Throw (ReferenceError "options"), w)).
Proof.
  split; [reflexivity|].
  intros Hnone. unfold parseJSON. rewrite run_bind.
  unfold outer_options. now rewrite Hnone.
Qed.

End Construction.

(* ===================================================================== *)
(** * The abbreviated serialization                                       *)
(* ===================================================================== *)

Section Serialization.

Context {TX : Type}.

(** [writeAbbr] is the twelve writes, one after the other, on the
    fields of the receiver. *)
Lemma writeAbbr_run (bw : list byte) (w : World TX) :
  writeAbbr bw w =
    (bw ← writeU32 (version (this w)) bw;
     bw ← writeHash (prevHash (this w)) bw;
     bw ← writeHash (merkleRoot (this w)) bw;
     bw ← writeHash (hashMerkleRootWithData (this w)) bw;
     bw ← writeHash (hashMerkleRootWithPrevData (this w)) bw;
     bw ← writeU32 (time (this w)) bw;
     bw ← writeU32 (bits (this w)) bw;
     bw ← writeU32 (nonce (this w)) bw;
     bw ← writeHash (outpointhash (this w)) bw;
     bw ← write32 (outpointn (this w)) bw;
     bw ← writeVarint (blocksigsize (this w)) bw;
     writeString (blocksig (this w)) "binary" bw, w).
Proof.
  destruct w as [b evs]. unfold writeAbbr.
  cbv beta iota delta [mbind M_bind res_bind read lift mret M_ret res_ret this].
  repeat match goal with
    | |- (match ?r with Ok _ => _ | Throw _ => _ end) = _ =>
        destruct r; [|reflexivity]
    end.
  reflexivity.
Qed.

Lemma res_bind_ok_inv {A B} (r : Res A) (k : A -> Res B) (b : B) :
  r ≫= k = Ok b -> exists a, r = Ok a /\ k a = Ok b.
Proof. destruct r as [a|e]; [eauto|discriminate]. Qed.

(** The shape of the fields of a valid header. *)
Lemma is_u32_shape (v : JsVal) :
  is_u32 v = true -> exists n, v = JNum n /\ 0 <= n < 2 ^ 32.
Proof.
  destruct v; cbn; try discriminate. intros Hr.
  apply andb_prop in Hr as [H1 H2]. exists n. split; [reflexivity|]. lia.
Qed.

Lemma is_i32_shape (v : JsVal) :
  is_i32 v = true -> exists n, v = JNum n /\ - 2 ^ 31 <= n < 2 ^ 31.
Proof.
  destruct v; cbn -[Z.pow]; try discriminate. intros Hr.
  apply andb_prop in Hr as [H1 H2]. exists n. split; [reflexivity|]. lia.
Qed.

Lemma is_hash_shape (v : JsVal) :
  is_hash v = true -> exists bs, v = JStr (hex_encode bs) /\ length bs = 32%nat.
Proof.
  destruct v; cbn; try discriminate. intros Hr.
  apply andb_prop in Hr as [H1 H2]. apply Nat.eqb_eq in H1.
  destruct (hex_decode_encode s H2) as (bs & _ & Enc & Len).
  - rewrite H1. exists 32%nat. reflexivity.
  - exists bs. split; [now rewrite Enc | lia].
Qed.

Lemma is_sig_shape (size sig : JsVal) :
  is_sig size sig = true ->
  exists s, sig = JStr s /\ size = JNum (Z.of_nat (String.length s)) /\
            Z.of_nat (String.length s) < 2 ^ 53.
Proof.
  destruct size, sig; cbn -[Z.pow]; try discriminate. intros Hr.
  apply andb_prop in Hr as [H1 H2]. apply Z.eqb_eq in H1.
  exists s. subst n. split; [reflexivity|]. split; [reflexivity|]. lia.
Qed.

Lemma writeHash_hex (bs bw : list byte) :
  length bs = 32%nat -> writeHash (JStr (hex_encode bs)) bw = Ok (bw ++ bs).
Proof.
  intros Hlen. unfold writeHash. rewrite hex_decode_hex_encode, Hlen. reflexivity.
Qed.

Lemma writeVarint_size (n : nat) (bw : list byte) :
  writeVarint (JNum (Z.of_nat n)) bw = Ok (bw ++ varint_bytes (Z.of_nat n)).
Proof.
  unfold writeVarint. destruct (Z.ltb_spec (Z.of_nat n) 0); [lia|reflexivity].
Qed.

Lemma valid_header_fields (b : AbstractBlock TX) :
  valid_header b = true ->
  exists v ph mr hd hp t bi no oh on sg,
    (version b = JNum v /\ 0 <= v < 2 ^ 32) /\
    (prevHash b = JStr (hex_encode ph) /\ length ph = 32%nat) /\
    (merkleRoot b = JStr (hex_encode mr) /\ length mr = 32%nat) /\
    (hashMerkleRootWithData b = JStr (hex_encode hd) /\ length hd = 32%nat) /\
    (hashMerkleRootWithPrevData b = JStr (hex_encode hp) /\ length hp = 32%nat) /\
    (time b = JNum t /\ 0 <= t < 2 ^ 32) /\
    (bits b = JNum bi /\ 0 <= bi < 2 ^ 32) /\
    (nonce b = JNum no /\ 0 <= no < 2 ^ 32) /\
    (outpointhash b = JStr (hex_encode oh) /\ length oh = 32%nat) /\
    (outpointn b = JNum on /\ - 2 ^ 31 <= on < 2 ^ 31) /\
    (blocksigsize b = JNum (Z.of_nat (String.length sg)) /\
     blocksig b = JStr sg /\ Z.of_nat (String.length sg) < 2 ^ 53).
Proof.
  unfold valid_header. intros Hv.
  repeat match type of Hv with (_ && _) = true => apply andb_prop in Hv as [Hv ?] end.
  repeat match goal with
    | Hx : is_u32 _ = true |- _ => apply is_u32_shape in Hx as (? & ? & ?)
    | Hx : is_i32 _ = true |- _ => apply is_i32_shape in Hx as (? & ? & ?)
    | Hx : is_hash _ = true |- _ => apply is_hash_shape in Hx as (? & ? & ?)
    | Hx : is_sig _ _ = true |- _ => apply is_sig_shape in Hx as (? & ? & ? & ?)
    end.
  do 11 eexists.
  repeat match goal with |- _ /\ _ => split end; first [eassumption | lia].
Qed.

(** The bytes of a valid header. *)
Lemma writeAbbr_valid (w : World TX) (bw : list byte) v ph mr hd hp t bi no oh on sg :
  version (this w) = JNum v ->
  prevHash (this w) = JStr (hex_encode ph) -> length ph = 32%nat ->
  merkleRoot (this w) = JStr (hex_encode mr) -> length mr = 32%nat ->
  hashMerkleRootWithData (this w) = JStr (hex_encode hd) -> length hd = 32%nat ->
  hashMerkleRootWithPrevData (this w) = JStr (hex_encode hp) -> length hp = 32%nat ->
  time (this w) = JNum t -> bits (this w) = JNum bi -> nonce (this w) = JNum no ->
  outpointhash (this w) = JStr (hex_encode oh) -> length oh = 32%nat ->
  outpointn (this w) = JNum on ->
  blocksigsize (this w) = JNum (Z.of_nat (String.length sg)) ->
  blocksig (this w) = JStr sg ->
  writeAbbr bw w =
    (Ok (bw ++ le_bytes 4 v ++ ph ++ mr ++ hd ++ hp ++ le_bytes 4 t ++
         le_bytes 4 bi ++ le_bytes 4 no ++ oh ++ le_bytes 4 on ++
         varint_bytes (Z.of_nat (String.length sg)) ++ list_byte_of_string sg), w).
Proof.
  intros E1 E2 L1 E3 L2 E4 L3 E5 L4 E6 E7 E8 E9 L5 E10 E11 E12.
  rewrite writeAbbr_run, E1, E2, E3, E4, E5, E6, E7, E8, E9, E10, E11, E12.
  repeat first
    [ rewrite writeHash_hex by assumption
    | rewrite writeVarint_size
    | progress cbn [mbind res_bind writeU32 write32] ].
  cbn [writeString String.eqb Ascii.eqb Bool.eqb].
  now rewrite <- !app_assoc.
Qed.

Lemma wire_u32_of_write (v : JsVal) (bw out : list byte) :
  writeU32 v bw = Ok out -> exists f, out = bw ++ f /\ wire_u32 v f /\ length f = 4%nat.
Proof.
  intros E. apply writeU32_inv in E as (n & -> & ->).
  exists (le_bytes 4 n). split; [reflexivity|]. split; [|apply length_le_bytes].
  exists n. split; [reflexivity|]. split; [reflexivity|]. apply le_value_le_bytes.
Qed.

Lemma wire_i32_of_write (v : JsVal) (bw out : list byte) :
  write32 v bw = Ok out -> exists f, out = bw ++ f /\ wire_i32 v f /\ length f = 4%nat.
Proof.
  intros E. apply write32_inv in E as (n & -> & ->).
  exists (le_bytes 4 n). split; [reflexivity|]. split; [|apply length_le_bytes].
  exists n. split; [reflexivity|]. split; [reflexivity|].
  intros Hn. rewrite le_value_le_bytes. now apply to_int32_wrap.
Qed.

Lemma wire_hash_of_write (v : JsVal) (bw out : list byte) :
  writeHash v bw = Ok out -> exists f, out = bw ++ f /\ wire_hash v f /\ length f = 32%nat.
Proof.
  intros E. apply writeHash_inv in E as (bs & -> & L & Hv).
  exists bs. split; [reflexivity|]. split; [|exact L]. now split.
Qed.

(** C3. [writeAbbr] changes nothing in the world; what it appends to
    the writer is, in this order and with nothing between or after:
    [version] as 4 little-endian bytes, the 32 bytes of each of
    [prevHash], [merkleRoot], [hashMerkleRootWithData] and
    [hashMerkleRootWithPrevData], then [time], [bits] and [nonce] as 4
    little-endian bytes each, the 32 bytes of [outpointhash],
    [outpointn] as 4 bytes of two's complement, [blocksigsize] as a
    compact size and the bytes of [blocksig]; and it does write them for
    every valid header. *)
Theorem writeAbbr_layout (bw : list byte) (w : World TX) :
  after (writeAbbr bw) w = w /\
  (forall out, result (writeAbbr bw) w = Ok out ->
     exists f1 f2 f3 f4 f5 f6 f7 f8 f9 f10 f11 f12,
       out = bw ++ f1 ++ f2 ++ f3 ++ f4 ++ f5 ++ f6 ++ f7 ++ f8 ++ f9 ++ f10 ++ f11 ++ f12 /\
       (wire_u32 (version (this w)) f1 /\ length f1 = 4%nat) /\
       (wire_hash (prevHash (this w)) f2 /\ length f2 = 32%nat) /\
       (wire_hash (merkleRoot (this w)) f3 /\ length f3 = 32%nat) /\
       (wire_hash (hashMerkleRootWithData (this w)) f4 /\ length f4 = 32%nat) /\
       (wire_hash (hashMerkleRootWithPrevData (this w)) f5 /\ length f5 = 32%nat) /\
       (wire_u32 (time (this w)) f6 /\ length f6 = 4%nat) /\
       (wire_u32 (bits (this w)) f7 /\ length f7 = 4%nat) /\
       (wire_u32 (nonce (this w)) f8 /\ length f8 = 4%nat) /\
       (wire_hash (outpointhash (this w)) f9 /\ length f9 = 32%nat) /\
       (wire_i32 (outpointn (this w)) f10 /\ length f10 = 4%nat) /\
       wire_varint (blocksigsize (this w)) f11 /\
       wire_bytes (blocksig (this w)) f12 /\
       length out = (length bw + 180 + length f11 + length f12)%nat) /\
  (valid_header (this w) = true -> exists out, result (writeAbbr bw) w = Ok out).
Proof.
  split; [apply writeAbbr_unchanged|]. split.
  - intros out. unfold result. rewrite writeAbbr_run. cbn [fst]. intros E.
    apply res_bind_ok_inv in E as (b1 & E1 & E).
    apply res_bind_ok_inv in E as (b2 & E2 & E).
    apply res_bind_ok_inv in E as (b3 & E3 & E).
    apply res_bind_ok_inv in E as (b4 & E4 & E).
    apply res_bind_ok_inv in E as (b5 & E5 & E).
    apply res_bind_ok_inv in E as (b6 & E6 & E).
    apply res_bind_ok_inv in E as (b7 & E7 & E).
    apply res_bind_ok_inv in E as (b8 & E8 & E).
    apply res_bind_ok_inv in E as (b9 & E9 & E).
    apply res_bind_ok_inv in E as (b10 & E10 & E).
    apply res_bind_ok_inv in E as (b11 & E11 & E12).
    apply wire_u32_of_write in E1 as (f1 & -> & W1 & L1).
    apply wire_hash_of_write in E2 as (f2 & -> & W2 & L2).
    apply wire_hash_of_write in E3 as (f3 & -> & W3 & L3).
    apply wire_hash_of_write in E4 as (f4 & -> & W4 & L4).
    apply wire_hash_of_write in E5 as (f5 & -> & W5 & L5).
    apply wire_u32_of_write in E6 as (f6 & -> & W6 & L6).
    apply wire_u32_of_write in E7 as (f7 & -> & W7 & L7).
    apply wire_u32_of_write in E8 as (f8 & -> & W8 & L8).
    apply wire_hash_of_write in E9 as (f9 & -> & W9 & L9).
    apply wire_i32_of_write in E10 as (f10 & -> & W10 & L10).
    apply writeVarint_inv in E11 as (n & En & Hn & ->).
    apply writeString_binary_inv in E12 as (sg & Es & ->).
    exists f1, f2, f3, f4, f5, f6, f7, f8, f9, f10, (varint_bytes n), (list_byte_of_string sg).
    split; [now rewrite <- !app_assoc|].
    repeat match goal with |- _ /\ _ => split end; try assumption.
    + exists n. auto.
    + exists sg. auto.
    + rewrite !List.length_app. lia.
  - intros Hv.
    destruct (valid_header_fields _ Hv)
      as (v & ph & mr & hd & hp & t & bi & no & oh & on & sg & Hf).
    destruct Hf as ((E1 & _) & (E2 & L2) & (E3 & L3) & (E4 & L4) & (E5 & L5) &
                    (E6 & _) & (E7 & _) & (E8 & _) & (E9 & L9) & (E10 & _) &
                    (E11 & E12 & _)).
    eexists. unfold result.
    now rewrite (writeAbbr_valid w bw v ph mr hd hp t bi no oh on sg).
Qed.

(** C2. For a valid header, [abbr()] returns bytes, and [parseAbbr] on
    these bytes, whatever the receiver held before, consumes them all and
    leaves a receiver whose twelve header fields are those of the header
    that was serialized. *)
Theorem parseAbbr_abbr_roundtrip (w w0 : World TX) :
  valid_header (this w) = true ->
  exists data w',
    abbr w = (Ok data, w) /\
    parseAbbr data w0 = (Ok [], w') /\
    same_header (this w') (this w).
Proof.
  intros Hv.
  destruct (valid_header_fields _ Hv)
    as (v & ph & mr & hd & hp & t & bi & no & oh & on & sg & Hf).
  destruct Hf as ((E1 & R1) & (E2 & L2) & (E3 & L3) & (E4 & L4) & (E5 & L5) &
                  (E6 & R6) & (E7 & R7) & (E8 & R8) & (E9 & L9) & (E10 & R10) &
                  (E11 & E12 & R11)).
  destruct w0 as [b0 evs0].
  destruct b0 as [? ? ? ? ? ? ? ? ? ? ? ? ? ? ? ? ? ? ? ?].
  eexists. eexists. split; [|split].
  - unfold abbr. rewrite run_bind.
    rewrite (writeAbbr_valid w new_WriteBuffer v ph mr hd hp t bi no oh on sg)
      by assumption.
    reflexivity.
  - unfold render, new_WriteBuffer. cbn [app].
    unfold parseAbbr. run_m.
    rewrite readU32_le_bytes by exact R1. cbv beta iota.
    rewrite readHash_hex_app by exact L2. cbv beta iota.
    rewrite readHash_hex_app by exact L3. cbv beta iota.
    rewrite readHash_hex_app by exact L4. cbv beta iota.
    rewrite readHash_hex_app by exact L5. cbv beta iota.
    rewrite readU32_le_bytes by exact R6. cbv beta iota.
    rewrite readU32_le_bytes by exact R7. cbv beta iota.
    rewrite readU32_le_bytes by exact R8. cbv beta iota.
    rewrite readHash_hex_app by exact L9. cbv beta iota.
    rewrite read32_le_bytes by exact R10. cbv beta iota.
    rewrite <- (app_nil_r (list_byte_of_string sg)).
    rewrite readVarint_varint_bytes by (change (2 ^ 64) with 18446744073709551616;
      change (2 ^ 53) with 9007199254740992 in R11; lia).
    cbv beta iota.
    cbn [set_version set_prevHash set_merkleRoot set_hashMerkleRootWithData
         set_hashMerkleRootWithPrevData set_time set_bits set_nonce
         set_outpointhash set_outpointn set_blocksigsize blocksigsize].
    rewrite readString_binary_app. cbv beta iota.
    cbn [set_blocksig]. reflexivity.
  - unfold same_header. cbn [this version prevHash merkleRoot hashMerkleRootWithData
      hashMerkleRootWithPrevData time bits nonce outpointhash outpointn
      blocksigsize blocksig].
    rewrite E1, E2, E3, E4, E5, E6, E7, E8, E9, E10, E11, E12.
    repeat split.
Qed.

End Serialization.

(* ===================================================================== *)
(** * More on the abbreviated serialization                               *)
(* ===================================================================== *)

Section SerializationMore.

Context {TX : Type}.

(** Every write appends to the writer, and whether it throws does not
    depend on what the writer holds. *)
Lemma writeU32_cases (v : JsVal) :
  (exists e, forall bw, writeU32 v bw = Throw e) \/
  (exists f, forall bw, writeU32 v bw = Ok (bw ++ f)).
Proof. destruct v; cbn; eauto. Qed.

Lemma write32_cases (v : JsVal) :
  (exists e, forall bw, write32 v bw = Throw e) \/
  (exists f, forall bw, write32 v bw = Ok (bw ++ f)).
Proof. destruct v; cbn; eauto. Qed.

Lemma writeHash_cases (v : JsVal) :
  (exists e, forall bw, writeHash v bw = Throw e) \/
  (exists f, forall bw, writeHash v bw = Ok (bw ++ f)).
Proof.
  destruct v; cbn; eauto.
  - destruct (hex_decode s) as [bs|]; [|eauto].
    destruct (length bs =? 32)%nat; eauto.
  - destruct (length data =? 32)%nat; eauto.
Qed.

Lemma writeVarint_cases (v : JsVal) :
  (exists e, forall bw, writeVarint v bw = Throw e) \/
  (exists f, forall bw, writeVarint v bw = Ok (bw ++ f)).
Proof. destruct v; cbn; eauto. destruct (n <? 0); eauto. Qed.

Lemma writeString_cases (v : JsVal) (enc : string) :
  (exists e, forall bw, writeString v enc bw = Throw e) \/
  (exists f, forall bw, writeString v enc bw = Ok (bw ++ f)).
Proof. destruct v; cbn; eauto. destruct (String.eqb enc "binary"); eauto. Qed.

Lemma writeAbbr_app (bw : list byte) (w : World TX) :
  result (writeAbbr bw) w = res_map (app bw) (result (writeAbbr []) w).
Proof.
  unfold result. rewrite !writeAbbr_run. cbn [fst].
  destruct (writeU32_cases (version (this w))) as [[? Hw]|[? Hw]];
    rewrite !Hw; clear Hw; cbn [mbind res_bind res_map]; [reflexivity|].
  destruct (writeHash_cases (prevHash (this w))) as [[? Hw]|[? Hw]];
    rewrite !Hw; clear Hw; cbn [mbind res_bind res_map]; [reflexivity|].
  destruct (writeHash_cases (merkleRoot (this w))) as [[? Hw]|[? Hw]];
    rewrite !Hw; clear Hw; cbn [mbind res_bind res_map]; [reflexivity|].
  destruct (writeHash_cases (hashMerkleRootWithData (this w))) as [[? Hw]|[? Hw]];
    rewrite !Hw; clear Hw; cbn [mbind res_bind res_map]; [reflexivity|].
  destruct (writeHash_cases (hashMerkleRootWithPrevData (this w))) as [[? Hw]|[? Hw]];
    rewrite !Hw; clear Hw; cbn [mbind res_bind res_map]; [reflexivity|].
  destruct (writeU32_cases (time (this w))) as [[? Hw]|[? Hw]];
    rewrite !Hw; clear Hw; cbn [mbind res_bind res_map]; [reflexivity|].
  destruct (writeU32_cases (bits (this w))) as [[? Hw]|[? Hw]];
    rewrite !Hw; clear Hw; cbn [mbind res_bind res_map]; [reflexivity|].
  destruct (writeU32_cases (nonce (this w))) as [[? Hw]|[? Hw]];
    rewrite !Hw; clear Hw; cbn [mbind res_bind res_map]; [reflexivity|].
  destruct (writeHash_cases (outpointhash (this w))) as [[? Hw]|[? Hw]];
    rewrite !Hw; clear Hw; cbn [mbind res_bind res_map]; [reflexivity|].
  destruct (write32_cases (outpointn (this w))) as [[? Hw]|[? Hw]];
    rewrite !Hw; clear Hw; cbn [mbind res_bind res_map]; [reflexivity|].
  destruct (writeVarint_cases (blocksigsize (this w))) as [[? Hw]|[? Hw]];
    rewrite !Hw; clear Hw; cbn [mbind res_bind res_map]; [reflexivity|].
  destruct (writeString_cases (blocksig (this w)) "binary") as [[? Hw]|[? Hw]];
    rewrite !Hw; clear Hw; cbn [mbind res_bind res_map]; [reflexivity|].
  cbn [app]. now rewrite <- !app_assoc.
Qed.

Lemma abbr_result (w : World TX) :
  result abbr w = result (writeAbbr []) w.
Proof.
  unfold result, abbr. rewrite run_bind.
  destruct (writeAbbr new_WriteBuffer w) as [[bw|e] w'] eqn:E;
    unfold new_WriteBuffer in E; rewrite E; reflexivity.
Qed.

(** X1. What [writeAbbr] returns on a writer that holds bytes already is
    these bytes followed by what [abbr()] returns; and it throws what
    [abbr()] throws. *)
Theorem writeAbbr_appends_abbr (bw : list byte) (w : World TX) :
  result (writeAbbr bw) w = res_map (app bw) (result abbr w).
Proof. rewrite abbr_result. apply writeAbbr_app. Qed.

Lemma abbr_same_header (w1 w2 : World TX) :
  same_header (this w1) (this w2) -> result abbr w1 = result abbr w2.
Proof.
  intros (E1 & E2 & E3 & E4 & E5 & E6 & E7 & E8 & E9 & E10 & E11 & E12).
  rewrite !abbr_result. unfold result. rewrite !writeAbbr_run. cbn [fst].
  now rewrite E1, E2, E3, E4, E5, E6, E7, E8, E9, E10, E11, E12.
Qed.

Lemma same_header_sym (a b : AbstractBlock TX) : same_header a b -> same_header b a.
Proof. unfold same_header. intuition congruence. Qed.

Lemma same_header_trans (a b c : AbstractBlock TX) :
  same_header a b -> same_header b c -> same_header a c.
Proof. unfold same_header. intuition congruence. Qed.

(** Decoding the bytes of twelve well-formed fields, whatever follows
    them. *)
Lemma parseAbbr_fields (w0 : World TX) v ph mr hd hp t bi no oh on sg (extra : list byte) :
  0 <= v < 2 ^ 32 -> length ph = 32%nat -> length mr = 32%nat ->
  length hd = 32%nat -> length hp = 32%nat ->
  0 <= t < 2 ^ 32 -> 0 <= bi < 2 ^ 32 -> 0 <= no < 2 ^ 32 ->
  length oh = 32%nat -> - 2 ^ 31 <= on < 2 ^ 31 ->
  Z.of_nat (String.length sg) < 2 ^ 53 ->
  exists w',
    parseAbbr (le_bytes 4 v ++ ph ++ mr ++ hd ++ hp ++ le_bytes 4 t ++
               le_bytes 4 bi ++ le_bytes 4 no ++ oh ++ le_bytes 4 on ++
               varint_bytes (Z.of_nat (String.length sg)) ++
               list_byte_of_string sg ++ extra) w0 = (Ok extra, w') /\
    (version (this w') = JNum v /\ prevHash (this w') = JStr (hex_encode ph) /\
     merkleRoot (this w') = JStr (hex_encode mr) /\
     hashMerkleRootWithData (this w') = JStr (hex_encode hd) /\
     hashMerkleRootWithPrevData (this w') = JStr (hex_encode hp) /\
     time (this w') = JNum t /\ bits (this w') = JNum bi /\ nonce (this w') = JNum no /\
     outpointhash (this w') = JStr (hex_encode oh) /\ outpointn (this w') = JNum on /\
     blocksigsize (this w') = JNum (Z.of_nat (String.length sg)) /\
     blocksig (this w') = JStr sg).
Proof.
  intros R1 L2 L3 L4 L5 R6 R7 R8 L9 R10 R11.
  destruct w0 as [b0 evs0].
  destruct b0 as [? ? ? ? ? ? ? ? ? ? ? ? ? ? ? ? ? ? ? ?].
  eexists. split.
  - unfold parseAbbr. run_m.
    rewrite readU32_le_bytes by exact R1. cbv beta iota.
    rewrite readHash_hex_app by exact L2. cbv beta iota.
    rewrite readHash_hex_app by exact L3. cbv beta iota.
    rewrite readHash_hex_app by exact L4. cbv beta iota.
    rewrite readHash_hex_app by exact L5. cbv beta iota.
    rewrite readU32_le_bytes by exact R6. cbv beta iota.
    rewrite readU32_le_bytes by exact R7. cbv beta iota.
    rewrite readU32_le_bytes by exact R8. cbv beta iota.
    rewrite readHash_hex_app by exact L9. cbv beta iota.
    rewrite read32_le_bytes by exact R10. cbv beta iota.
    rewrite readVarint_varint_bytes by (change (2 ^ 64) with 18446744073709551616;
      change (2 ^ 53) with 9007199254740992 in R11; lia).
    cbv beta iota.
    cbn [set_version set_prevHash set_merkleRoot set_hashMerkleRootWithData
         set_hashMerkleRootWithPrevData set_time set_bits set_nonce
         set_outpointhash set_outpointn set_blocksigsize blocksigsize].
    rewrite readString_binary_app. cbv beta iota.
    cbn [set_blocksig]. reflexivity.
  - cbn. repeat split.
Qed.

(** The bytes of a valid header, decoded in front of any bytes. *)
Lemma parseAbbr_of_valid (w : World TX) :
  valid_header (this w) = true ->
  exists data,
    result abbr w = Ok data /\
    forall (w0 : World TX) (extra : list byte), exists w',
      parseAbbr (data ++ extra) w0 = (Ok extra, w') /\
      same_header (this w') (this w).
Proof.
  intros Hv.
  destruct (valid_header_fields _ Hv)
    as (v & ph & mr & hd & hp & t & bi & no & oh & on & sg & Hf).
  destruct Hf as ((E1 & R1) & (E2 & L2) & (E3 & L3) & (E4 & L4) & (E5 & L5) &
                  (E6 & R6) & (E7 & R7) & (E8 & R8) & (E9 & L9) & (E10 & R10) &
                  (E11 & E12 & R11)).
  eexists. split.
  - rewrite abbr_result. unfold result.
    rewrite (writeAbbr_valid w [] v ph mr hd hp t bi no oh on sg) by assumption.
    reflexivity.
  - intros w0 extra.
    destruct (parseAbbr_fields w0 v ph mr hd hp t bi no oh on sg extra)
      as (w' & Hp & Hh); try assumption.
    exists w'. split.
    + cbn [app]. rewrite <- !app_assoc. exact Hp.
    + unfold same_header.
      rewrite E1, E2, E3, E4, E5, E6, E7, E8, E9, E10, E11, E12. exact Hh.
Qed.

(** X3. The bytes [abbr()] returns for a valid header, followed by any
    other bytes, are decoded by [parseAbbr] into the twelve fields of
    that header, and the reader is left in front of the other bytes. *)
Theorem parseAbbr_leaves_trailing_bytes (w w0 : World TX) (extra : list byte) :
  valid_header (this w) = true ->
  exists data w',
    result abbr w = Ok data /\
    parseAbbr (data ++ extra) w0 = (Ok extra, w') /\
    same_header (this w') (this w).
Proof.
  intros Hv. destruct (parseAbbr_of_valid w Hv) as (data & Ha & Hp).
  destruct (Hp w0 extra) as (w' & Hr & Hs). eauto.
Qed.

(** X4. Two valid headers with the same abbreviated serialization agree
    on all twelve fields. *)
Theorem abbr_injective (w1 w2 : World TX) :
  valid_header (this w1) = true -> valid_header (this w2) = true ->
  result abbr w1 = result abbr w2 ->
  same_header (this w1) (this w2).
Proof.
  intros Hv1 Hv2 Heq.
  destruct (parseAbbr_of_valid w1 Hv1) as (d1 & Ha1 & Hp1).
  destruct (parseAbbr_of_valid w2 Hv2) as (d2 & Ha2 & Hp2).
  rewrite Ha1, Ha2 in Heq. injection Heq as <-.
  destruct (Hp1 w1 []) as (w1' & Hr1 & Hs1).
  destruct (Hp2 w1 []) as (w2' & Hr2 & Hs2).
  rewrite Hr1 in Hr2. injection Hr2 as <-.
  apply same_header_trans with (this w1'); [now apply same_header_sym | exact Hs2].
Qed.

(** A read that succeeds on a buffer succeeds on every extension of
    the buffer, with the same value. *)
Lemma read_bytes_extend (n : nat) (br bs r x : list byte) :
  read_bytes n br = Ok (bs, r) -> read_bytes n (br ++ x) = Ok (bs, r ++ x).
Proof.
  unfold read_bytes. rewrite List.length_app.
  destruct (Nat.leb_spec n (length br)) as [Hle|Hlt]; [|discriminate].
  intros E. injection E as <- <-.
  destruct (Nat.leb_spec n (length br + length x)) as [_|Hlt]; [|lia].
  now rewrite take_app_le, drop_app_le by exact Hle.
Qed.

Lemma readU32_extend (br r x : list byte) (v : JsVal) :
  readU32 br = Ok (v, r) -> readU32 (br ++ x) = Ok (v, r ++ x).
Proof.
  unfold readU32. destruct (read_bytes 4 br) as [[bs r']|e] eqn:E; [|discriminate].
  rewrite (read_bytes_extend _ _ _ _ x E). cbn. intros H. now injection H as <- <-.
Qed.

Lemma read32_extend (br r x : list byte) (v : JsVal) :
  read32 br = Ok (v, r) -> read32 (br ++ x) = Ok (v, r ++ x).
Proof.
  unfold read32. destruct (read_bytes 4 br) as [[bs r']|e] eqn:E; [|discriminate].
  rewrite (read_bytes_extend _ _ _ _ x E). cbn. intros H. now injection H as <- <-.
Qed.

Lemma readHash_extend (enc : string) (br r x : list byte) (v : JsVal) :
  readHash enc br = Ok (v, r) -> readHash enc (br ++ x) = Ok (v, r ++ x).
Proof.
  unfold readHash. destruct (read_bytes 32 br) as [[bs r']|e] eqn:E; [|discriminate].
  rewrite (read_bytes_extend _ _ _ _ x E). cbn. intros H. now injection H as <- <-.
Qed.

Lemma readVarint_extend (br r x : list byte) (v : JsVal) :
  readVarint br = Ok (v, r) -> readVarint (br ++ x) = Ok (v, r ++ x).
Proof.
  unfold readVarint. destruct (read_bytes 1 br) as [[b0 r1]|e] eqn:E; [|discriminate].
  rewrite (read_bytes_extend _ _ _ _ x E). cbn [mbind res_bind].
  destruct (le_value b0 =? 255);
    [|destruct (le_value b0 =? 254); [|destruct (le_value b0 =? 253)]].
  - destruct (read_bytes 8 r1) as [[bs r2]|e] eqn:E2; [|discriminate].
    rewrite (read_bytes_extend _ _ _ _ x E2). cbn. intros H. now injection H as <- <-.
  - destruct (read_bytes 4 r1) as [[bs r2]|e] eqn:E2; [|discriminate].
    rewrite (read_bytes_extend _ _ _ _ x E2). cbn. intros H. now injection H as <- <-.
  - destruct (read_bytes 2 r1) as [[bs r2]|e] eqn:E2; [|discriminate].
    rewrite (read_bytes_extend _ _ _ _ x E2). cbn. intros H. now injection H as <- <-.
  - cbn. intros H. now injection H as <- <-.
Qed.

Lemma readString_extend (enc : string) (size : JsVal) (br r x : list byte) (v : JsVal) :
  readString enc size br = Ok (v, r) -> readString enc size (br ++ x) = Ok (v, r ++ x).
Proof.
  unfold readString. destruct size; try discriminate.
  destruct (n <? 0); [discriminate|].
  destruct (String.eqb enc "binary"); [|discriminate].
  destruct (read_bytes (Z.to_nat n) br) as [[bs r']|e] eqn:E; [|discriminate].
  rewrite (read_bytes_extend _ _ _ _ x E). cbn. intros H. now injection H as <- <-.
Qed.

Lemma parseAbbr_extend (br r x : list byte) (w : World TX) :
  result (parseAbbr br) w = Ok r -> result (parseAbbr (br ++ x)) w = Ok (r ++ x).
Proof.
  destruct w as [b evs].
  destruct b as [? ? ? ? ? ? ? ? ? ? ? ? ? ? ? ? ? ? ? ?].
  unfold result, parseAbbr.
  cbv beta iota delta
    [mbind mret M_bind M_ret read modify emit lift throw this events fst snd
     set_version set_prevHash set_merkleRoot set_hashMerkleRootWithData
     set_hashMerkleRootWithPrevData set_time set_bits set_nonce
     set_outpointhash set_outpointn set_blocksigsize set_blocksig
     version prevHash merkleRoot hashMerkleRootWithData
     hashMerkleRootWithPrevData time bits nonce outpointhash outpointn
     blocksigsize blocksig].
  repeat match goal with
    | |- (let (r0, _) := match ?X with Ok _ => _ | Throw _ => _ end in r0) = _ -> _ =>
        let E := fresh "E" in
        destruct X as [[? ?]|?] eqn:E; cbv beta iota; [|discriminate];
        first [ rewrite (readU32_extend _ _ x _ E)
              | rewrite (read32_extend _ _ x _ E)
              | rewrite (readHash_extend _ _ _ x _ E)
              | rewrite (readVarint_extend _ _ x _ E)
              | rewrite (readString_extend _ _ _ _ x _ E) ];
        cbv beta iota; clear E
    end.
  intros H. now injection H as <-.
Qed.

(** X5. No proper prefix of the bytes [abbr()] returns for a valid
    header is accepted by [parseAbbr]: the decoding throws, whatever the
    receiver is. *)
Theorem parseAbbr_rejects_truncated (w : World TX) :
  valid_header (this w) = true ->
  exists data,
    result abbr w = Ok data /\
    forall (w0 : World TX) (n : nat), (n < length data)%nat ->
      exists e, result (parseAbbr (take n data)) w0 = Throw e.
Proof.
  intros Hv. destruct (parseAbbr_of_valid w Hv) as (data & Ha & Hp).
  exists data. split; [exact Ha|]. intros w0 n Hn.
  destruct (result (parseAbbr (take n data)) w0) as [r|e] eqn:E; [|eauto].
  exfalso.
  apply (parseAbbr_extend _ _ (drop n data)) in E.
  rewrite take_drop in E.
  destruct (Hp w0 []) as (w' & Hr & _). rewrite app_nil_r in Hr.
  unfold result in E. rewrite Hr in E. cbn in E. injection E as E.
  symmetry in E. apply app_eq_nil in E as [_ E].
  apply (f_equal (@length byte)) in E. rewrite length_drop in E. cbn in E. lia.
Qed.

Lemma readU32_enough (br : list byte) :
  (4 <= length br)%nat ->
  readU32 br = Ok (JNum (le_value (take 4 br)), drop 4 br).
Proof.
  intros Hl. unfold readU32, read_bytes.
  destruct (Nat.leb_spec 4 (length br)); [reflexivity|lia].
Qed.

Lemma readU32_short (br : list byte) :
  (length br < 4)%nat -> exists e, readU32 br = Throw e.
Proof.
  intros Hl. unfold readU32, read_bytes.
  destruct (Nat.leb_spec 4 (length br)); [lia|]. cbn. eauto.
Qed.

(** X6. [parseAbbr] is not all or nothing. On a buffer of less than four
    bytes it throws and leaves the world as it was; on a longer one the
    version is the number in the first four bytes from then on, also when
    a later field cannot be read and the call throws. *)
Theorem parseAbbr_assigns_as_it_reads (br : list byte) (w : World TX) :
  ((length br < 4)%nat -> exists e, parseAbbr br w = (Throw e, w)) /\
  ((4 <= length br)%nat ->
     version (this (after (parseAbbr br) w)) = JNum (le_value (take 4 br))).
Proof.
  split; intros Hl.
  - destruct (readU32_short br Hl) as (e & E). exists e.
    unfold parseAbbr. rewrite run_bind. cbn [lift]. now rewrite E.
  - unfold after, parseAbbr. rewrite run_bind. cbn [lift].
    rewrite (readU32_enough br Hl). cbv beta iota.
    rewrite run_bind. cbn [modify].
    match goal with
    | |- version (this (snd (?m ?w1))) = _ =>
        assert (K : keeps (fun b : AbstractBlock TX => version b) m) by step_keeps;
        specialize (K w1); unfold after in K; cbv beta in K; rewrite K
    end.
    cbn [this]. now destruct (this w).
Qed.

End SerializationMore.

(* ===================================================================== *)
(** * The hash cache                                                      *)
(* ===================================================================== *)

Section HashCache.

Context {TX : Type} {imports : Imports TX}.

(** On a mutable receiver [hash] assigns nothing. *)
Lemma hash_mutable_this (enc : JsVal) (w : World TX) :
  mutable (this w) = true -> this (after (hash enc) w) = this w.
Proof.
  intros Hm. destruct w as [b evs]. cbn [this] in Hm.
  unfold after, hash, call_hash256.
  rewrite run_bind. cbn [read this]. rewrite run_bind.
  destruct (truthy (_hash b)); cbn [negb].
  - unfold mret at 1, M_ret at 1.
    destruct (is_hex_enc enc); [|reflexivity].
    rewrite run_bind. cbn [read this]. 
    destruct (truthy (_hhash b)); cbn [negb]; [reflexivity|].
    rewrite run_bind. cbn [lift].
    destruct (toString_hex (_hash b)); [|reflexivity].
    rewrite run_bind. cbn [read this]. rewrite Hm. reflexivity.
  - rewrite run_bind, abbr_run.
    destruct (result abbr (mkWorld b evs)) as [data|e]; [|reflexivity].
    run_m. rewrite Hm. cbn [negb].
    destruct (is_hex_enc enc); [|reflexivity].
    destruct (truthy (_hhash b)); cbn [negb]; [reflexivity|].
    rewrite Hm. reflexivity.
Qed.

Lemma verifyPOW_run (w : World TX) :
  verifyPOW w =
    match hash JUndefined w with
    | (Ok h, w1) =>
        (Ok (consensus_verifyPOW h (bits (this w1))),
         mkWorld (this w1) (events w1 ++ [EvVerifyPOW h (bits (this w1))]))
    | (Throw e, w1) => (Throw e, w1)
    end.
Proof.
  unfold verifyPOW. rewrite run_bind.
  destruct (hash JUndefined w) as [[h|e] w1]; reflexivity.
Qed.

(** What [verifyPOW] can change of the receiver: the slot [_hash],
    nothing else. *)
Lemma verifyPOW_keeps :
  keeps (fun b : AbstractBlock TX =>
           (version b, prevHash b, merkleRoot b, hashMerkleRootWithData b,
            hashMerkleRootWithPrevData b, time b, bits b, nonce b,
            outpointhash b, outpointn b, blocksigsize b, blocksig b,
            (txs b, groupSize b, prevContractData b, mutable b),
            (_hhash b, _size b, _witness b))) verifyPOW.
Proof.
  unfold verifyPOW, hash, call_hash256. cbn [is_hex_enc].
  step_keeps; apply keeps_unchanged, abbr_unchanged.
Qed.

Lemma verifyPOW_hash_slot (w : World TX) (r : bool) :
  result verifyPOW w = Ok r ->
  _hash (this (after verifyPOW w)) = _hash (this w) \/
  (mutable (this w) = false /\ truthy (_hash (this w)) = false /\
   exists data, result abbr w = Ok data /\
     _hash (this (after verifyPOW w)) = JBuffer (digest_hash256 data)).
Proof.
  unfold result, after. rewrite verifyPOW_run.
  destruct (truthy (_hash (this w))) eqn:Hc.
  - rewrite hash_cached by exact Hc. cbn. now left.
  - destruct (result abbr w) as [data|e] eqn:Ha.
    + rewrite (hash_miss w data Hc Ha). cbn [fst snd this].
      destruct (mutable (this w)) eqn:Hm; intros _.
      * now left.
      * right. split; [reflexivity|]. split; [reflexivity|].
        exists data. split; [exact Ha|]. now destruct (this w).
    + rewrite (hash_miss_throw _ w e Hc Ha). cbn. discriminate.
Qed.

(** C7, as the code has it. When [verify()] returns false, either
    [verifyPOW()] returned false and the world is the one it left, or
    it returned true and the world is the one the body check left after
    it. [verifyPOW()] keeps the twelve header fields, [_hhash], [_size],
    [_witness] and the remaining fields; of the receiver it can change
    the slot [_hash] only, which it fills with the digest of the
    serialization when the receiver is immutable and the slot was
    empty. *)
Theorem verify_false_effects (w : World TX) (impl : M TX bool) :
  result (verify impl) w = Ok false ->
  let b1 := this (after verifyPOW w) in
  (result verifyPOW w = Ok false /\ after (verify impl) w = after verifyPOW w \/
   result verifyPOW w = Ok true /\
     after (verify impl) w = after (call_verifyBody impl) (after verifyPOW w)) /\
  same_header b1 (this w) /\
  (_hhash b1 = _hhash (this w) /\ _size b1 = _size (this w) /\
   _witness b1 = _witness (this w)) /\
  same_rest b1 (this w) /\
  (_hash b1 = _hash (this w) \/
   (mutable (this w) = false /\ truthy (_hash (this w)) = false /\
    exists data, result abbr w = Ok data /\ _hash b1 = JBuffer (digest_hash256 data))).
Proof.
  intros Hf b1. subst b1.
  pose proof (verifyPOW_keeps w) as Hk. cbv beta in Hk.
  assert (Hpow : exists r, result verifyPOW w = Ok r).
  { unfold result, verify in *. rewrite run_bind in Hf.
    destruct (verifyPOW w) as [[r|e] w1]; [eauto|discriminate Hf]. }
  destruct Hpow as (r & Hr).
  split; [|split; [|split; [|split]]].
  - unfold result, after, verify in *. rewrite run_bind in *.
    destruct (verifyPOW w) as [[[|]|e] w1]; cbn [fst snd negb] in *.
    + right. split; [reflexivity|]. rewrite run_bind.
      destruct (call_verifyBody impl w1) as [[[|]|e] w2]; reflexivity.
    + left. now split.
    + discriminate Hr.
  - unfold same_header. injection Hk as -> -> -> -> -> -> -> -> -> -> -> -> _ _ _ _ _ _ _.
    repeat split.
  - injection Hk as _ _ _ _ _ _ _ _ _ _ _ _ _ _ _ _ -> -> ->. repeat split.
  - unfold same_rest. injection Hk as _ _ _ _ _ _ _ _ _ _ _ _ -> -> -> -> _ _ _.
    repeat split.
  - exact (verifyPOW_hash_slot w r Hr).
Qed.

End HashCache.

(* ===================================================================== *)
(** * Decoding over a filled cache                                        *)
(* ===================================================================== *)

Section Decoding.

Context {TX : Type} {imports : Imports TX}.

Lemma parseAbbr_keeps (br : list byte) :
  keeps (fun b : AbstractBlock TX =>
           (_hash b, _hhash b, _size b, _witness b,
            (txs b, groupSize b, prevContractData b, mutable b)))
        (parseAbbr br).
Proof. unfold parseAbbr. step_keeps. Qed.

(** The header a successful [parseAbbr] leaves is a function of the
    bytes: none of the twelve fields survives from the receiver. *)
Lemma parseAbbr_overwrites (br : list byte) (w w2 : World TX) (r : list byte) :
  result (parseAbbr br) w = Ok r ->
  result (parseAbbr br) w2 = Ok r /\
  same_header (this (after (parseAbbr br) w)) (this (after (parseAbbr br) w2)).
Proof.
  destruct w as [b evs], w2 as [b2 evs2].
  destruct b as [? ? ? ? ? ? ? ? ? ? ? ? ? ? ? ? ? ? ? ?].
  destruct b2 as [? ? ? ? ? ? ? ? ? ? ? ? ? ? ? ? ? ? ? ?].
  unfold result, after, same_header, parseAbbr.
  cbv beta iota delta
    [mbind mret M_bind M_ret read modify emit lift throw this events fst snd
     set_version set_prevHash set_merkleRoot set_hashMerkleRootWithData
     set_hashMerkleRootWithPrevData set_time set_bits set_nonce
     set_outpointhash set_outpointn set_blocksigsize set_blocksig
     version prevHash merkleRoot hashMerkleRootWithData
     hashMerkleRootWithPrevData time bits nonce outpointhash outpointn
     blocksigsize blocksig].
  repeat match goal with
    | |- context [match ?x with Ok _ => _ | Throw _ => _ end] =>
        destruct x as [[? ?]|?]; cbv beta iota; [|discriminate]
    end.
  intros E. split; [exact E|]. repeat split.
Qed.

(** C10. [parseAbbr] leaves the four cache slots as they were. Given
    the bytes of a valid header it returns, whatever the receiver is,
    and the receiver's twelve header fields are then those of that
    header; any successful decoding replaces all twelve fields by what
    the bytes hold, none surviving from the receiver. So, on an immutable
    receiver whose [hash()] was computed before the decoding, [hash()]
    after the decoding returns the digest of the serialization from
    before it, without calling the digest again. *)
Theorem parseAbbr_keeps_caches (br : list byte) (w : World TX) :
  same_caches (this (after (parseAbbr br) w)) (this w) /\
  (forall w1 : World TX, valid_header (this w1) = true -> result abbr w1 = Ok br ->
     result (parseAbbr br) w = Ok [] /\
     same_header (this (after (parseAbbr br) w)) (this w1)) /\
  (forall (w2 : World TX) r, result (parseAbbr br) w = Ok r ->
     result (parseAbbr br) w2 = Ok r /\
     same_header (this (after (parseAbbr br) w)) (this (after (parseAbbr br) w2))) /\
  (forall (w0 : World TX) data,
     mutable (this w0) = false -> truthy (_hash (this w0)) = false ->
     result abbr w0 = Ok data ->
     w = after (hash JUndefined) w0 ->
     let w' := after (parseAbbr br) w in
     hash JUndefined w' = (Ok (JBuffer (digest_hash256 data)), w')).
Proof.
  pose proof (parseAbbr_keeps br w) as Hk. cbv beta in Hk.
  split; [|split; [|split]].
  - unfold same_caches. injection Hk as -> -> -> -> _ _ _ _. repeat split.
  - intros w1 Hv Hb.
    destruct (parseAbbr_of_valid w1 Hv) as (data & Ha & Hp).
    rewrite Hb in Ha. injection Ha as <-.
    destruct (Hp w []) as (w' & Hr & Hs). rewrite app_nil_r in Hr.
    unfold result, after. rewrite Hr. split; [reflexivity | exact Hs].
  - intros w2 r. apply parseAbbr_overwrites.
  - intros w0 data Hm Hc Ha Hw w'. subst w'.
    assert (Hh0 : _hash (this w) = JBuffer (digest_hash256 data)).
    { rewrite Hw. unfold after. rewrite (hash_miss w0 data Hc Ha), Hm.
      cbn [snd this]. now destruct (this w0). }
    injection Hk as Hh _ _ _ _ _ _ _. rewrite Hh0 in Hh.
    rewrite hash_cached; [now rewrite Hh|]. now rewrite Hh.
Qed.

End Decoding.

(* ===================================================================== *)
(** * The cache over the life of an entity                                *)
(* ===================================================================== *)

Section CacheLifetime.

Context {TX : Type} {imports : Imports TX}.

Lemma hash_keeps_filled (enc : JsVal) (w : World TX) :
  truthy (_hash (this w)) = true ->
  _hash (this (after (hash enc) w)) = _hash (this w).
Proof.
  intros Hc. destruct w as [b evs]. cbn [this] in *.
  unfold after, hash.
  rewrite run_bind. cbn [read this]. rewrite run_bind, Hc. cbn [negb].
  unfold mret at 1, M_ret at 1.
  destruct (is_hex_enc enc); [|reflexivity].
  run_m.
  destruct (truthy (_hhash b)); cbn [negb]; [reflexivity|].
  destruct (toString_hex (_hash b)); [|reflexivity].
  destruct (mutable b); cbn [negb snd]; [reflexivity|].
  now destruct b.
Qed.

Lemma verifyPOW_this (w : World TX) :
  this (after verifyPOW w) = this (after (hash JUndefined) w).
Proof.
  unfold after. rewrite verifyPOW_run.
  destruct (hash JUndefined w) as [[h|e] w1]; reflexivity.
Qed.

Lemma parseOptions_keeps (options : JsVal) :
  keeps (fun b : AbstractBlock TX => _hash b) (parseOptions options).
Proof. unfold parseOptions. step_keeps. Qed.

Lemma parseJSON_keeps (scope : gmap string JsVal) (json : JsVal) :
  keeps (fun b : AbstractBlock TX => (_hash b, mutable b)) (parseJSON scope json).
Proof. unfold parseJSON, outer_options_dot, outer_options. step_keeps. Qed.

(** No call but [refresh] takes a digest out of the slot [_hash]. *)
Lemma call_keeps_filled (d : list byte) (c : Call) (w : World TX) :
  is_refresh c = false ->
  _hash (this w) = JBuffer d -> _hash (this (call c w)) = JBuffer d.
Proof.
  intros Hc Hd. destruct c as [enc| |br|options|scope json|all]; cbn [call].
  - rewrite hash_keeps_filled; [exact Hd | now rewrite Hd].
  - rewrite verifyPOW_this, hash_keeps_filled; [exact Hd | now rewrite Hd].
  - pose proof (parseAbbr_keeps br w) as Hk. cbv beta in Hk.
    injection Hk as -> _ _ _ _ _ _ _. exact Hd.
  - rewrite (parseOptions_keeps options w). exact Hd.
  - pose proof (parseJSON_keeps scope json w) as Hk. cbv beta in Hk.
    injection Hk as -> _. exact Hd.
  - discriminate Hc.
Qed.

Lemma calls_keep_filled (d : list byte) (cs : list Call) (w : World TX) :
  Forall (fun c => is_refresh c = false) cs ->
  _hash (this w) = JBuffer d -> _hash (this (calls cs w)) = JBuffer d.
Proof.
  intros Hcs. revert w. induction Hcs as [|c cs Hc _ IH]; intros w Hd.
  - exact Hd.
  - cbn [calls fold_left]. apply IH. now apply call_keeps_filled.
Qed.

(** No call but [parseOptions] ends the state "mutable, nothing
    cached". *)
Lemma call_keeps_mutable_empty (c : Call) (w : World TX) :
  is_parseOptions c = false ->
  mutable (this w) = true /\ truthy (_hash (this w)) = false ->
  mutable (this (call c w)) = true /\ truthy (_hash (this (call c w))) = false.
Proof.
  intros Hc [Hm He]. destruct c as [enc| |br|options|scope json|all]; cbn [call].
  - rewrite hash_mutable_this by exact Hm. now split.
  - rewrite verifyPOW_this, hash_mutable_this by exact Hm. now split.
  - pose proof (parseAbbr_keeps br w) as Hk. cbv beta in Hk.
    injection Hk as -> _ _ _ _ _ _ ->. now split.
  - discriminate Hc.
  - pose proof (parseJSON_keeps scope json w) as Hk. cbv beta in Hk.
    injection Hk as -> ->. now split.
  - destruct (refresh_empties all w) as [-> ->]. now split.
Qed.

Lemma calls_keep_mutable_empty (cs : list Call) (w : World TX) :
  Forall (fun c => is_parseOptions c = false) cs ->
  mutable (this w) = true /\ truthy (_hash (this w)) = false ->
  mutable (this (calls cs w)) = true /\ truthy (_hash (this (calls cs w))) = false.
Proof.
  intros Hcs. revert w. induction Hcs as [|c cs Hc _ IH]; intros w Hw.
  - exact Hw.
  - cbn [calls fold_left]. apply IH. now apply call_keeps_mutable_empty.
Qed.

(** C4, as the code has it. On an immutable receiver with an empty
    cache, [hash()] first serializes the header. When [abbr()] returns,
    as it does for every valid header, [hash()] computes the digest of
    the bytes, with one call of the digest, and stores it in [_hash];
    after any calls of [hash], [verifyPOW], [parseAbbr], [parseOptions]
    and [parseJSON] that follow, whatever they do to the fields,
    [hash()] returns that digest again and changes nothing: only
    [refresh] ends this. When [abbr()] throws, [hash()] throws the same,
    the digest is not called and nothing is stored. On a mutable
    receiver [hash] writes no field, whatever the encoding asked for;
    and if its cache is empty, then after any calls of [hash],
    [verifyPOW], [parseAbbr], [parseJSON] and [refresh], [hash()]
    computes the digest of the serialization of the fields as they then
    are, with a call of the digest, or throws what [abbr()] throws and
    changes nothing. *)
Theorem hash_memoization (w : World TX) :
  (mutable (this w) = false -> truthy (_hash (this w)) = false ->
   match result abbr w with
   | Ok data =>
       let d := JBuffer (digest_hash256 data) in
       let w1 := mkWorld (set_hash d (this w)) (events w ++ [EvHash256 data]) in
       hash JUndefined w = (Ok d, w1) /\
       forall cs, Forall (fun c => is_refresh c = false) cs ->
         hash JUndefined (calls cs w1) = (Ok d, calls cs w1)
   | Throw e => hash JUndefined w = (Throw e, w)
   end) /\
  (valid_header (this w) = true -> exists data, result abbr w = Ok data) /\
  (mutable (this w) = true ->
     (forall enc, this (after (hash enc) w) = this w) /\
     (truthy (_hash (this w)) = false ->
      forall cs, Forall (fun c => is_parseOptions c = false) cs ->
        let w' := calls cs w in
        match result abbr w' with
        | Ok data =>
            hash JUndefined w' =
              (Ok (JBuffer (digest_hash256 data)),
               mkWorld (this w') (events w' ++ [EvHash256 data]))
        | Throw e => hash JUndefined w' = (Throw e, w')
        end)).
Proof.
  split; [|split].
  - intros Hm Hc. destruct (result abbr w) as [data|e] eqn:Ha.
    + intros d w1. split.
      * rewrite (hash_miss w data Hc Ha). now rewrite Hm.
      * intros cs Hcs.
        assert (Hd : _hash (this (calls cs w1)) = JBuffer (digest_hash256 data)).
        { apply calls_keep_filled; [exact Hcs|]. subst w1. cbn [this].
          now destruct (this w). }
        rewrite hash_cached; [now rewrite Hd|]. now rewrite Hd.
    + exact (hash_miss_throw JUndefined w e Hc Ha).
  - intros Hv. destruct (parseAbbr_of_valid w Hv) as (data & Ha & _). eauto.
  - intros Hm. split.
    + intros enc. now apply hash_mutable_this.
    + intros Hc cs Hcs w'.
      destruct (calls_keep_mutable_empty cs w Hcs (conj Hm Hc)) as [Hm' Hc'].
      fold w' in Hm', Hc'.
      destruct (result abbr w') as [data|e] eqn:Ha.
      * rewrite (hash_miss w' data Hc' Ha). now rewrite Hm'.
      * exact (hash_miss_throw JUndefined w' e Hc' Ha).
Qed.

End CacheLifetime.

(* ===================================================================== *)
(** * More on construction from JSON                                      *)
(* ===================================================================== *)

Section ConstructionMore.

Context {TX : Type}.

Lemma outer_options_run (scope : gmap string JsVal) (o : JsVal) (w : World TX) :
  scope !! "options" = Some o -> outer_options scope w = (Ok o, w).
Proof. intros Hs. unfold outer_options. now rewrite Hs. Qed.

Lemma outer_options_dot_bind {B} (scope : gmap string JsVal) (o : JsVal) (k : string)
    (f : JsVal -> M TX B) (w : World TX) :
  scope !! "options" = Some o ->
  (outer_options_dot scope k ≫= f) w = f (get_prop o k) w.
Proof.
  intros Hs. unfold outer_options_dot.
  rewrite !run_bind, (outer_options_run scope o w Hs). reflexivity.
Qed.

Lemma modify_bind {B} (g : AbstractBlock TX -> AbstractBlock TX)
    (f : unit -> M TX B) (w : World TX) :
  (modify g ≫= f) w = f tt (mkWorld (g (this w)) (events w)).
Proof. reflexivity. Qed.

(** X12. Where a binding of the name [options] is in scope, [parseJSON]
    does with the object bound there what [parseOptions] does with its
    argument, except that it never sets [mutable]: it returns or throws
    the same, and leaves the same world but for that flag. Its own
    argument plays no part. *)
Theorem parseJSON_reads_outer_options
    (scope : gmap string JsVal) (json o : JsVal) (w : World TX) :
  scope !! "options" = Some o ->
  parseJSON scope json w =
    (result (parseOptions o) w,
     mkWorld (set_mutable (mutable (this w)) (this (after (parseOptions o) w)))
             (events (after (parseOptions o) w))).
Proof.
  intros Hs. unfold result, after.
  destruct w as [b evs].
  destruct b as [? ? ? ? ? ? ? ? ? ? ? ? ? ? ? ? ? ? ? ?].
  unfold parseJSON, parseOptions.
  rewrite run_bind, (outer_options_run scope o _ Hs). cbv beta iota.
  destruct (truthy o);
    [rewrite !assert_bind_true by reflexivity
    |rewrite !assert_bind_false by reflexivity; reflexivity].
  do 8 (rewrite (outer_options_dot_bind scope o _ _ _ Hs);
        match goal with
        | |- context [lift (assert ?c None)] =>
            destruct c;
            [rewrite !assert_bind_true by reflexivity
            |rewrite !assert_bind_false by reflexivity; reflexivity]
        end).
  do 11 (rewrite (outer_options_dot_bind scope o _ _ _ Hs), modify_bind;
         cbn [this events]).
  rewrite (outer_options_dot_bind scope o _ _ _ Hs).
  rewrite !modify_bind. cbn [this events modify].
  destruct (not_nullish (get_prop o "mutable")); reflexivity.
Qed.

End ConstructionMore.

(* ===================================================================== *)
(** * More on hashing and on what is built on it                          *)
(* ===================================================================== *)

Section HashMore.

Context {TX : Type} {imports : Imports TX} {helpers : Helpers}.

(** A call [hash(enc)], phase by phase: the binary digest, cached or
    computed, then its hex form if asked for, cached or computed. *)
Lemma hash_phases (enc : JsVal) (w : World TX) :
  hash enc w =
    match (if truthy (_hash (this w)) then Ok (_hash (this w), w)
           else match result abbr w with
                | Ok data =>
                    let d := JBuffer (digest_hash256 data) in
                    Ok (d, mkWorld (if mutable (this w) then this w
                                    else set_hash d (this w))
                                   (events w ++ [EvHash256 data]))
                | Throw e => Throw e
                end) with
    | Throw e => (Throw e, w)
    | Ok (h, w1) =>
        if is_hex_enc enc then
          if truthy (_hhash (this w1)) then (Ok (_hhash (this w1)), w1)
          else match toString_hex h with
               | Ok hex =>
                   (Ok hex, mkWorld (if mutable (this w1) then this w1
                                     else set_hhash hex (this w1))
                                    (events w1))
               | Throw e => (Throw e, w1)
               end
        else (Ok h, w1)
    end.
Proof.
  destruct w as [b evs]. unfold hash, call_hash256.
  rewrite run_bind. cbn [read this]. rewrite run_bind.
  destruct (truthy (_hash b)); cbn [negb].
  - unfold mret at 1, M_ret at 1.
    destruct (is_hex_enc enc); [|reflexivity].
    run_m. destruct (truthy (_hhash b)); cbn [negb]; [reflexivity|].
    destruct (toString_hex (_hash b)); [|reflexivity].
    destruct (mutable b); reflexivity.
  - rewrite run_bind, abbr_run.
    destruct (result abbr (mkWorld b evs)) as [data|e]; [|reflexivity].
    run_m. destruct (mutable b) eqn:Hm; cbn [negb];
      (destruct (is_hex_enc enc); [|reflexivity]).
    + destruct (truthy (_hhash b)); cbn [negb]; [reflexivity|].
      rewrite Hm. reflexivity.
    + destruct b; cbn in *. 
      destruct (truthy _hhash0); cbn [negb]; [reflexivity|].
      rewrite Hm. reflexivity.
Qed.

Lemma abbr_events (b : AbstractBlock TX) (e1 e2 : list Event) :
  result abbr (mkWorld b e1) = result abbr (mkWorld b e2).
Proof.
  apply abbr_same_header. unfold same_header. cbn. repeat split.
Qed.

(** X2. What [abbr()] returns or throws is decided by the twelve header
    fields, and so is what [hash()] returns or throws on an entity with
    nothing cached: transactions, the mutable flag and the log play no
    part. *)
Theorem hash_depends_on_header_only (w1 w2 : World TX) :
  same_header (this w1) (this w2) ->
  result abbr w1 = result abbr w2 /\
  (truthy (_hash (this w1)) = false -> truthy (_hash (this w2)) = false ->
   result (hash JUndefined) w1 = result (hash JUndefined) w2).
Proof.
  intros Hs. pose proof (abbr_same_header w1 w2 Hs) as Ha.
  split; [exact Ha|]. intros H1 H2.
  unfold result at 1 2. rewrite !hash_phases, H1, H2, Ha. cbn [is_hex_enc].
  destruct (result abbr w2); reflexivity.
Qed.

(** X11. When nothing is cached and [abbr()] throws, [hash], [verifyPOW],
    [verify], [rhash] and [toInv] throw the same error and leave the
    world as it was: nothing is cached, the digest, the proof-of-work
    checker and the body check are not called. *)
Theorem abbr_failure_propagates (w : World TX) (e : JsError) :
  truthy (_hash (this w)) = false -> result abbr w = Throw e ->
  (forall enc, hash enc w = (Throw e, w)) /\
  verifyPOW w = (Throw e, w) /\
  (forall impl, verify impl w = (Throw e, w)) /\
  rhash w = (Throw e, w) /\
  toInv w = (Throw e, w).
Proof.
  intros Hc Ha.
  assert (Hh : forall enc, hash enc w = (Throw e, w)).
  { intros enc. rewrite hash_phases, Hc, Ha. reflexivity. }
  assert (Hp : verifyPOW w = (Throw e, w)).
  { rewrite verifyPOW_run, Hh. reflexivity. }
  split; [exact Hh|]. split; [exact Hp|]. split; [|split].
  - intros impl. unfold verify. rewrite run_bind, Hp. reflexivity.
  - unfold rhash. rewrite run_bind, Hh. reflexivity.
  - unfold toInv. rewrite run_bind, Hh. reflexivity.
Qed.

Lemma refresh_header (all : JsVal) (w : World TX) :
  same_header (this (after (refresh all) w)) (this w) /\
  _hash (this (after (refresh all) w)) = JNull /\
  _hhash (this (after (refresh all) w)) = JNull /\
  mutable (this (after (refresh all) w)) = mutable (this w).
Proof.
  unfold after, same_header. rewrite refresh_run.
  destruct w as [b evs]. destruct b as [? ? ? ? ? ? ? ? ? ? ? ? t ? ? ? ? ? ? ?].
  cbn. destruct (truthy all); [destruct t|]; cbn; repeat split.
Qed.

(** X9. After [refresh(all)], whatever was cached before, [hash()]
    serializes the header again, and the refresh has kept the header.
    When [abbr()] returned before the refresh, [hash()] calls the digest
    on those bytes: it returns their digest, logs that one call and, on
    an immutable entity, stores the digest again. When [abbr()] threw
    before the refresh, [hash()] throws the same, and neither calls the
    digest nor stores anything. *)
Theorem refresh_then_hash_recomputes (all : JsVal) (w : World TX) :
  let w1 := after (refresh all) w in
  match result abbr w with
  | Ok data =>
      let d := JBuffer (digest_hash256 data) in
      hash JUndefined w1 =
        (Ok d, mkWorld (if mutable (this w) then this w1 else set_hash d (this w1))
                       (events w1 ++ [EvHash256 data]))
  | Throw e => hash JUndefined w1 = (Throw e, w1)
  end.
Proof.
  intros w1.
  destruct (refresh_header all w) as (Hs & Hh & _ & Hm). fold w1 in Hs, Hh, Hm.
  pose proof (abbr_same_header w1 w Hs) as Ha1.
  rewrite hash_phases, Hh. cbn [truthy].
  destruct (result abbr w) as [data|e]; rewrite Ha1; cbn [is_hex_enc].
  - now rewrite Hm.
  - reflexivity.
Qed.

(** X10. [verifyPOW()] checks the digest that is cached against the
    [bits] that the entity has now. On an immutable entity that was
    hashed and into which other bytes were decoded afterwards, the
    proof-of-work checker gets the digest of the serialization from
    before the decoding and the [bits] from after it (those of the
    decoded header, when the bytes are a valid header's), and the digest
    is not called again. *)
Theorem verifyPOW_after_decoding (w0 : World TX) (data br : list byte) :
  mutable (this w0) = false -> truthy (_hash (this w0)) = false ->
  result abbr w0 = Ok data ->
  let w := after (parseAbbr br) (after (hash JUndefined) w0) in
  let d := JBuffer (digest_hash256 data) in
  verifyPOW w =
    (Ok (consensus_verifyPOW d (bits (this w))),
     mkWorld (this w) (events w ++ [EvVerifyPOW d (bits (this w))])) /\
  (forall w1 : World TX, valid_header (this w1) = true -> result abbr w1 = Ok br ->
     bits (this w) = bits (this w1)).
Proof.
  intros Hm Hc Ha w d.
  assert (Hd : _hash (this w) = d).
  { subst w. pose proof (parseAbbr_keeps br (after (hash JUndefined) w0)) as Hk.
    cbv beta in Hk. injection Hk as -> _ _ _ _ _ _ _.
    unfold after. rewrite hash_phases, Hc, Ha, Hm. cbn. now destruct (this w0). }
  split.
  - rewrite verifyPOW_run, hash_phases, Hd. reflexivity.
  - intros w1 Hv Hb.
    destruct (parseAbbr_of_valid w1 Hv) as (data1 & Ha1 & Hp).
    rewrite Ha1 in Hb. injection Hb as ->.
    destruct (Hp (after (hash JUndefined) w0) []) as (w' & Hr & Hs).
    rewrite app_nil_r in Hr. subst w. unfold after at 1. rewrite Hr. cbn [snd].
    apply Hs.
Qed.

Lemma hash_consistent (enc : JsVal) (w : World TX) :
  caches_consistent (this w) -> caches_consistent (this (after (hash enc) w)).
Proof.
  unfold after. rewrite hash_phases.
  destruct w as [b evs]. destruct b as [? ? ? ? ? ? ? ? ? ? ? ? ? ? ? m h x ? ?].
  unfold caches_consistent. cbn [this _hash _hhash mutable].
  generalize (result abbr
    (mkWorld (mkAbstractBlock version0 prevHash0 merkleRoot0 hashMerkleRootWithData0
       hashMerkleRootWithPrevData0 time0 bits0 nonce0 outpointhash0 outpointn0
       blocksigsize0 blocksig0 txs0 groupSize0 prevContractData0 m h x _size0
       _witness0) evs)).
  intros ra [[-> ->]|(d & -> & [->| ->])]; cbn [truthy].
  - destruct ra as [data|e]; cbn; [|now left].
    destruct m, (is_hex_enc enc); cbn; eauto 6.
  - destruct m, (is_hex_enc enc); cbn; eauto 6.
  - destruct (is_hex_enc enc); cbn; [|eauto 6].
    destruct (negb (String.eqb (hex_encode d) "")); cbn; [eauto 6|].
    destruct m; cbn; eauto 6.
Qed.

Lemma rhash_this (w : World TX) :
  this (after rhash w) = this (after (hash (JStr "hex")) w) /\
  events (after rhash w) = events (after (hash (JStr "hex")) w).
Proof.
  unfold after, rhash. rewrite run_bind.
  destruct (hash (JStr "hex") w) as [[h|e] w1]; cbn; now split.
Qed.

Lemma toInv_this (w : World TX) :
  this (after toInv w) = this (after (hash (JStr "hex")) w) /\
  events (after toInv w) = events (after (hash (JStr "hex")) w).
Proof.
  unfold after, toInv. rewrite run_bind.
  destruct (hash (JStr "hex") w) as [[h|e] w1]; cbn; now split.
Qed.

Lemma parseOptions_keeps_hashes (options : JsVal) :
  keeps (fun b : AbstractBlock TX => (_hash b, _hhash b)) (parseOptions options).
Proof. unfold parseOptions. step_keeps. Qed.

Lemma parseJSON_keeps_hashes (scope : gmap string JsVal) (json : JsVal) :
  keeps (fun b : AbstractBlock TX => (_hash b, _hhash b, mutable b))
        (parseJSON scope json).
Proof. unfold parseJSON, outer_options_dot, outer_options. step_keeps. Qed.

Lemma consistent_of_hashes (a b : AbstractBlock TX) :
  _hash a = _hash b -> _hhash a = _hhash b ->
  caches_consistent b -> caches_consistent a.
Proof. unfold caches_consistent. intros -> ->. auto. Qed.

Lemma use_consistent (u : Use) (w : World TX) :
  caches_consistent (this w) -> caches_consistent (this (use u w)).
Proof.
  intros Hc. destruct u as [[enc| |br|options|scope json|all]| |]; cbn [use call].
  - now apply hash_consistent.
  - rewrite verifyPOW_this. now apply hash_consistent.
  - pose proof (parseAbbr_keeps br w) as Hk. cbv beta in Hk.
    injection Hk as E1 E2 _ _ _ _ _ _. now apply (consistent_of_hashes _ (this w)).
  - pose proof (parseOptions_keeps_hashes options w) as Hk. cbv beta in Hk.
    injection Hk as E1 E2. now apply (consistent_of_hashes _ (this w)).
  - pose proof (parseJSON_keeps_hashes scope json w) as Hk. cbv beta in Hk.
    injection Hk as E1 E2 _. now apply (consistent_of_hashes _ (this w)).
  - destruct (refresh_header all w) as (_ & E1 & E2 & _). left. now split.
  - destruct (rhash_this w) as [-> _]. now apply hash_consistent.
  - destruct (toInv_this w) as [-> _]. now apply hash_consistent.
Qed.

(** X7. The two hash slots stay in agreement under every use of the
    entity: if [_hhash] is filled, [_hash] holds a digest and [_hhash]
    its hex digits. It holds of a new entity, hence of every entity
    reached from a new one by [hash], [verifyPOW], [parseAbbr],
    [parseOptions], [parseJSON], [refresh], [rhash] and [toInv]. *)
Theorem caches_stay_consistent (us : list Use) (w : World TX) :
  (caches_consistent (this w) -> caches_consistent (this (uses us w))) /\
  (forall evs, caches_consistent (this (uses us (mkWorld new_AbstractBlock evs)))).
Proof.
  assert (Hgen : forall w0 : World TX,
            caches_consistent (this w0) -> caches_consistent (this (uses us w0))).
  { induction us as [|u us IH]; intros w0 Hc; [exact Hc|].
    cbn [uses fold_left]. apply IH. now apply use_consistent. }
  split; [apply Hgen|].
  intros evs. apply Hgen. left. now split.
Qed.

Lemma hash_hex_then_hash (w : World TX) (x : JsVal) :
  caches_consistent (this w) ->
  result (hash (JStr "hex")) w = Ok x ->
  exists d, x = JStr (hex_encode d) /\
    result (hash JUndefined) (after (hash (JStr "hex")) w) = Ok (JBuffer d).
Proof.
  unfold result, after. rewrite (hash_phases (JStr "hex") w).
  destruct w as [b evs]. destruct b as [? ? ? ? ? ? ? ? ? ? ? ? ? ? ? m h x0 ? ?].
  unfold caches_consistent. cbn [this _hash _hhash mutable].
  set (b := mkAbstractBlock version0 prevHash0 merkleRoot0 hashMerkleRootWithData0
       hashMerkleRootWithPrevData0 time0 bits0 nonce0 outpointhash0 outpointn0
       blocksigsize0 blocksig0 txs0 groupSize0 prevContractData0 m h x0 _size0
       _witness0).
  intros [[Hh Hx]|(d & Hh & Hx)].
  - subst h x0. cbn [truthy].
    destruct (result abbr (mkWorld b evs)) as [data|e] eqn:Ha; [|discriminate].
    cbn [is_hex_enc String.eqb Ascii.eqb Bool.eqb].
    destruct m; cbn; intros E; injection E as <-;
      exists (digest_hash256 data); (split; [reflexivity|]);
      rewrite hash_phases; cbn.
    + fold b. rewrite (abbr_events b _ evs), Ha. reflexivity.
    + reflexivity.
  - subst h. cbn [truthy is_hex_enc String.eqb Ascii.eqb Bool.eqb].
    destruct Hx as [->| ->]; cbn [truthy this _hhash].
    + cbn. intros E. injection E as <-. exists d. split; [reflexivity|].
      rewrite hash_phases. destruct m; reflexivity.
    + cbn. destruct (negb (String.eqb (hex_encode d) "")) eqn:Hne; cbn.
      * intros E. injection E as <-. exists d. split; [reflexivity|].
        rewrite hash_phases. reflexivity.
      * intros E. injection E as <-. exists d. split; [reflexivity|].
        rewrite hash_phases. destruct m; reflexivity.
Qed.

(** X8. On an entity whose hash slots agree, what [hash('hex')] returns
    is the hex digits of a digest, and [hash()] called next returns that
    digest: the two forms are of one digest, cached or not. *)
Theorem hash_hex_agrees_with_hash (w : World TX) (x : JsVal) :
  caches_consistent (this w) ->
  result (hash (JStr "hex")) w = Ok x ->
  exists d, x = JStr (hex_encode d) /\
    result (hash JUndefined) (after (hash (JStr "hex")) w) = Ok (JBuffer d).
Proof. apply hash_hex_then_hash. Qed.

Lemma hash_this_events (enc : JsVal) (w w' : World TX) :
  this w' = this w -> result (hash enc) w' = result (hash enc) w.
Proof.
  destruct w as [b evs], w' as [b' evs']. cbn [this]. intros ->.
  unfold result. rewrite !hash_phases. cbn [this events].
  rewrite (abbr_events b evs' evs).
  destruct (truthy (_hash b)); [|destruct (result abbr (mkWorld b evs)); [|reflexivity]];
    cbn [this events];
    (destruct (is_hex_enc enc); [|reflexivity]);
    match goal with
    | |- context [truthy (_hhash ?c)] => destruct (truthy (_hhash c))
    end; try reflexivity;
    match goal with
    | |- context [toString_hex ?h] => destruct (toString_hex h)
    end; reflexivity.
Qed.

(** X14. On an entity whose hash slots agree, the inventory item
    [toInv()] returns carries the [BLOCK] tag and the hex digits of the
    digest that [hash()] returns next; and [rhash()] returns what
    [util.revHex] makes of the hex digits of the digest that [hash()]
    returns next. *)
Theorem toInv_and_rhash_name_the_hash (w : World TX) :
  caches_consistent (this w) ->
  (forall item, result toInv w = Ok item ->
     exists d, item = new_InvItem InvItem_types_BLOCK (JStr (hex_encode d)) /\
       result (hash JUndefined) (after toInv w) = Ok (JBuffer d)) /\
  (forall r, result rhash w = Ok r ->
     exists d, util_revHex (JStr (hex_encode d)) = Ok r /\
       result (hash JUndefined) (after rhash w) = Ok (JBuffer d)).
Proof.
  intros Hc. split.
  - intros item Hi.
    assert (Hx : exists x, result (hash (JStr "hex")) w = Ok x /\
                           item = new_InvItem InvItem_types_BLOCK x).
    { unfold result, toInv in *. rewrite run_bind in Hi.
      destruct (hash (JStr "hex") w) as [[x|e] w1]; [|discriminate Hi].
      cbn in Hi. injection Hi as <-. eauto. }
    destruct Hx as (x & Hx & ->).
    destruct (hash_hex_then_hash w x Hc Hx) as (d & -> & Hd).
    exists d. split; [reflexivity|].
    rewrite <- Hd. apply hash_this_events. apply toInv_this.
  - intros r Hr.
    assert (Hx : exists x, result (hash (JStr "hex")) w = Ok x /\
                           util_revHex x = Ok r).
    { unfold result, rhash in *. rewrite run_bind in Hr.
      destruct (hash (JStr "hex") w) as [[x|e] w1]; [|discriminate Hr].
      cbn in Hr. eauto. }
    destruct Hx as (x & Hx & Hrev).
    destruct (hash_hex_then_hash w x Hc Hx) as (d & -> & Hd).
    exists d. split; [exact Hrev|].
    rewrite <- Hd. apply hash_this_events. apply rhash_this.
Qed.

Lemma digest_calls_app (l evs : list Event) :
  digest_calls (l ++ evs) = (digest_calls l + digest_calls evs)%nat.
Proof. unfold digest_calls. now rewrite List.filter_app, List.length_app. Qed.

Lemma digest_calls_quiet (evs : list Event) :
  Forall (fun e => is_hash256 e = false) evs -> digest_calls evs = 0%nat.
Proof.
  unfold digest_calls. induction 1 as [|e evs He _ IH]; [reflexivity|].
  cbn. now rewrite He.
Qed.

Lemma logs_quiet {A} (m : M TX A) (w : World TX) :
  logs (fun e => is_hash256 e = false) m ->
  digest_calls (events (after m w)) = digest_calls (events w).
Proof.
  intros Hl. destruct (Hl w) as (evs & -> & Hq).
  rewrite digest_calls_app, (digest_calls_quiet evs Hq). lia.
Qed.

Lemma parseAbbr_quiet (br : list byte) :
  logs (fun e => is_hash256 e = false) (parseAbbr (TX:=TX) br).
Proof. unfold parseAbbr. step_logs. Qed.

Lemma parseJSON_quiet (scope : gmap string JsVal) (json : JsVal) :
  logs (fun e => is_hash256 e = false) (parseJSON (TX:=TX) scope json).
Proof. unfold parseJSON, outer_options_dot, outer_options. step_logs. Qed.

Lemma hash_digest_calls (enc : JsVal) (w : World TX) :
  mutable (this w) = false ->
  let w' := after (hash enc) w in
  mutable (this w') = false /\
  (truthy (_hash (this w)) = true ->
     truthy (_hash (this w')) = true /\ events w' = events w) /\
  (truthy (_hash (this w)) = false ->
     w' = w \/
     (truthy (_hash (this w')) = true /\
      exists data, events w' = events w ++ [EvHash256 data])).
Proof.
  intros Hm w'. subst w'. unfold after. rewrite hash_phases.
  destruct w as [b evs]. destruct b as [? ? ? ? ? ? ? ? ? ? ? ? ? ? ? m h x ? ?].
  cbn [this _hash _hhash mutable] in *. subst m.
  generalize (result abbr
    (mkWorld (mkAbstractBlock version0 prevHash0 merkleRoot0 hashMerkleRootWithData0
       hashMerkleRootWithPrevData0 time0 bits0 nonce0 outpointhash0 outpointn0
       blocksigsize0 blocksig0 txs0 groupSize0 prevContractData0 false h x _size0
       _witness0) evs)).
  intros ra. destruct (truthy h) eqn:Hh.
  - destruct (is_hex_enc enc); cbn;
      [destruct (truthy x); cbn; [|destruct (toString_hex h); cbn]|];
      (split; [reflexivity|]); (split; [intros _; now split | discriminate]).
  - destruct ra as [data|e]; cbn.
    + destruct (is_hex_enc enc); cbn;
        [destruct (truthy x); cbn|];
        (split; [reflexivity|]);
        (split; [discriminate | intros _; right; split; [reflexivity|eauto]]).
    + split; [reflexivity|]. split; [discriminate | intros _; now left].
Qed.

Lemma verifyPOW_digest_calls (w : World TX) :
  digest_calls (events (after verifyPOW w)) =
  digest_calls (events (after (hash JUndefined) w)).
Proof.
  unfold after. rewrite verifyPOW_run.
  destruct (hash JUndefined w) as [[h|e] w1]; cbn [snd events]; [|reflexivity].
  rewrite digest_calls_app. cbn. lia.
Qed.

(** What one plain use does to the slot [_hash] of an immutable entity
    and to the number of calls of the digest. *)
Lemma use_digest_calls (u : Use) (w : World TX) :
  is_plain_use u = true -> mutable (this w) = false ->
  mutable (this (use u w)) = false /\
  (truthy (_hash (this w)) = true ->
     truthy (_hash (this (use u w))) = true /\
     digest_calls (events (use u w)) = digest_calls (events w)) /\
  (truthy (_hash (this w)) = false ->
     (truthy (_hash (this (use u w))) = false /\
      digest_calls (events (use u w)) = digest_calls (events w)) \/
     (truthy (_hash (this (use u w))) = true /\
      digest_calls (events (use u w)) = S (digest_calls (events w)))).
Proof.
  intros Hu Hm.
  assert (Hhash : forall enc (w' : World TX),
            this w' = this (after (hash enc) w) ->
            digest_calls (events w') = digest_calls (events (after (hash enc) w)) ->
            mutable (this w') = false /\
            (truthy (_hash (this w)) = true ->
               truthy (_hash (this w')) = true /\
               digest_calls (events w') = digest_calls (events w)) /\
            (truthy (_hash (this w)) = false ->
               (truthy (_hash (this w')) = false /\
                digest_calls (events w') = digest_calls (events w)) \/
               (truthy (_hash (this w')) = true /\
                digest_calls (events w') = S (digest_calls (events w))))).
  { intros enc w' Et Ed. rewrite Et, Ed.
    destruct (hash_digest_calls enc w Hm) as (H1 & H2 & H3).
    split; [exact H1|]. split.
    - intros Hc. destruct (H2 Hc) as [H4 H5]. split; [exact H4|]. now rewrite H5.
    - intros Hc. destruct (H3 Hc) as [E|(H4 & data & H5)].
      + left. rewrite E. now split.
      + right. split; [exact H4|]. rewrite H5, digest_calls_app. cbn. lia. }
  destruct u as [[enc| |br|options|scope json|all]| |]; cbn [use call];
    cbn in Hu; try discriminate Hu.
  - now apply (Hhash enc).
  - apply (Hhash JUndefined); [apply verifyPOW_this | apply verifyPOW_digest_calls].
  - pose proof (parseAbbr_keeps br w) as Hk. cbv beta in Hk.
    injection Hk as E1 _ _ _ _ _ _ E2.
    rewrite E1, E2, (logs_quiet _ w (parseAbbr_quiet br)).
    split; [exact Hm|]. split; [now split | intros Hc; left; now split].
  - pose proof (parseJSON_keeps_hashes scope json w) as Hk. cbv beta in Hk.
    injection Hk as E1 _ E2.
    rewrite E1, E2, (logs_quiet _ w (parseJSON_quiet scope json)).
    split; [exact Hm|]. split; [now split | intros Hc; left; now split].
  - destruct (rhash_this w) as [E1 E2]. apply (Hhash (JStr "hex")); [exact E1|].
    now rewrite E2.
  - destruct (toInv_this w) as [E1 E2]. apply (Hhash (JStr "hex")); [exact E1|].
    now rewrite E2.
Qed.

(** X13. Over any uses of an immutable entity that neither refresh it
    nor give it new options ([hash], [verifyPOW], [parseAbbr],
    [parseJSON], [rhash], [toInv], in any number and order) the digest is
    called at most once, and not at all if [_hash] was filled before. *)
Theorem digest_called_at_most_once (us : list Use) (w : World TX) :
  mutable (this w) = false ->
  Forall (fun u => is_plain_use u = true) us ->
  (digest_calls (events (uses us w)) <= S (digest_calls (events w)))%nat /\
  (truthy (_hash (this w)) = true ->
     digest_calls (events (uses us w)) = digest_calls (events w)).
Proof.
  intros Hm Hus.
  assert (Hgen : forall w0 : World TX, mutable (this w0) = false ->
    (truthy (_hash (this w0)) = true ->
       digest_calls (events (uses us w0)) = digest_calls (events w0)) /\
    (digest_calls (events (uses us w0)) <= S (digest_calls (events w0)))%nat).
  { induction Hus as [|u us Hu _ IH]; intros w0 Hm0.
    - cbn. split; [reflexivity | lia].
    - cbn [uses fold_left].
      destruct (use_digest_calls u w0 Hu Hm0) as (Hm1 & Hf & He).
      destruct (IH (use u w0) Hm1) as [IH1 IH2].
      destruct (truthy (_hash (this w0))) eqn:Hc.
      + destruct (Hf eq_refl) as [Hc1 Hd1]. specialize (IH1 Hc1).
        split; [intros _; unfold uses in *; lia | unfold uses in *; lia].
      + split; [discriminate|].
        destruct (He eq_refl) as [[Hc1 Hd1]|[Hc1 Hd1]].
        * unfold uses in *. lia.
        * specialize (IH1 Hc1). unfold uses in *. lia. }
  destruct (Hgen w Hm) as [H1 H2]. now split.
Qed.

(** X15. The encoding argument of [hash] is compared with the string
    ['hex'] and with nothing else: given any other value, a string in
    capitals or the name of another encoding included, [hash(enc)] does
    what [hash()] does, and leaves the hex slot as it was. *)
Theorem hash_binary_unless_hex (enc : JsVal) (w : World TX) :
  enc <> JStr "hex" ->
  hash enc w = hash JUndefined w /\
  _hhash (this (after (hash enc) w)) = _hhash (this w).
Proof.
  intros Hne.
  assert (Henc : is_hex_enc enc = false).
  { destruct enc; try reflexivity. cbn.
    destruct (String.eqb_spec s "hex") as [->|]; [now elim Hne | reflexivity]. }
  split.
  - rewrite (hash_phases enc), (hash_phases JUndefined), Henc. reflexivity.
  - unfold after. rewrite hash_phases, Henc.
    destruct (truthy (_hash (this w))); [reflexivity|].
    destruct (result abbr w); [|reflexivity].
    cbn [snd this]. destruct (mutable (this w)); [reflexivity|].
    now destruct (this w).
Qed.

End HashMore.

(* ===================================================================== *)
(** * The properties at concrete inputs                                   *)
(* ===================================================================== *)

Section Examples.

Import Samples.

(** With [bits] zero the proof-of-work check fails, and [verify()] of a
    headers-only variant returns false in the world [verifyPOW()]
    left. *)
Lemma verify_two_phase_witness :
  result verifyPOW sample_world_no_pow = Ok false /\
  verify headers_verifyBody sample_world_no_pow =
    (Ok false, after verifyPOW sample_world_no_pow).
Proof.
  assert (Hpow : result verifyPOW sample_world_no_pow = Ok false)
    by (vm_compute; reflexivity).
  split; [exact Hpow|].
  exact (proj1 (proj2 (verify_two_phase sample_world_no_pow headers_verifyBody) Hpow)).
Defined.

(** The sample header survives a round trip into a fresh entity. *)
Lemma parseAbbr_abbr_roundtrip_witness :
  valid_header sample_block = true /\
  exists data w',
    abbr sample_world = (Ok data, sample_world) /\
    parseAbbr data fresh_world = (Ok [], w') /\
    same_header (this w') sample_block.
Proof.
  assert (Hv : valid_header (this sample_world) = true) by (vm_compute; reflexivity).
  split; [exact Hv|].
  exact (parseAbbr_abbr_roundtrip sample_world fresh_world Hv).
Defined.

(** The sample header is written, in 184 bytes: 180 for the fixed
    fields, one for the size of the signature and three for the
    signature. *)
Lemma writeAbbr_layout_witness :
  valid_header sample_block = true /\
  exists out, result (writeAbbr new_WriteBuffer) sample_world = Ok out /\
              length out = 184%nat.
Proof.
  assert (Hv : valid_header (this sample_world) = true) by (vm_compute; reflexivity).
  split; [exact Hv|].
  destruct (proj2 (proj2 (writeAbbr_layout new_WriteBuffer sample_world)) Hv)
    as (out & Hout).
  exists out. split; [exact Hout|].
  destruct (proj1 (proj2 (writeAbbr_layout new_WriteBuffer sample_world)) out Hout)
    as (f1 & f2 & f3 & f4 & f5 & f6 & f7 & f8 & f9 & f10 & f11 & f12 & _ & Hw).
  destruct Hw as (_ & _ & _ & _ & _ & _ & _ & _ & _ & _ & W11 & W12 & Hlen).
  destruct W11 as (n & En & _ & ->). destruct W12 as (sg & Es & ->).
  injection En as <-. injection Es as <-. exact Hlen.
Defined.

(** The first [hash()] of the immutable sample, a valid header, fills
    the cache, and the digest is still returned after the other header
    was decoded into the entity; a new entity has no signature to write,
    and [hash()] throws on it and leaves it as it is; the mutable sample
    is left as it is, also when the hex form is asked for, and it is
    hashed anew after a decoding. *)
Lemma hash_memoization_witness :
  (valid_header sample_block = true /\
   exists data,
     result abbr sample_world = Ok data /\
     let d := JBuffer (sample_digest data) in
     let w1 := mkWorld (set_hash d sample_block) [EvHash256 data] in
     hash JUndefined sample_world = (Ok d, w1) /\
     let w2 := calls [CallParseAbbr other_bytes; CallHash (JStr "hex")] w1 in
     version (this w2) = JNum 3 /\ hash JUndefined w2 = (Ok d, w2)) /\
  hash JUndefined fresh_world =
    (Throw (TypeError "writeString: not a string"), fresh_world) /\
  this (after (hash (JStr "hex")) sample_world_mutable) = sample_block_mutable /\
  (let w' := calls [CallHash JUndefined; CallParseAbbr other_bytes] sample_world_mutable in
   exists data,
     result abbr w' = Ok data /\
     hash JUndefined w' =
       (Ok (JBuffer (sample_digest data)), mkWorld (this w') (events w' ++ [EvHash256 data]))).
Proof.
  split; [|split; [|split]].
  - assert (Hv : valid_header (this sample_world) = true) by (vm_compute; reflexivity).
    split; [exact Hv|].
    destruct (proj1 (proj2 (hash_memoization sample_world)) Hv) as (data & Ha).
    exists data. split; [exact Ha|].
    pose proof (proj1 (hash_memoization sample_world) eq_refl eq_refl) as H.
    rewrite Ha in H. destruct H as [H1 H2].
    split; [exact H1|]. split.
    + vm_compute in Ha. injection Ha as <-. vm_compute. reflexivity.
    + apply H2. repeat constructor.
  - pose proof (proj1 (hash_memoization fresh_world) eq_refl eq_refl) as H.
    assert (Ha : result abbr fresh_world = Throw (TypeError "writeString: not a string"))
      by (vm_compute; reflexivity).
    rewrite Ha in H. exact H.
  - exact (proj1 (proj2 (proj2 (hash_memoization sample_world_mutable)) eq_refl)
             (JStr "hex")).
  - cbv zeta.
    pose proof (proj2 (proj2 (proj2 (hash_memoization sample_world_mutable)) eq_refl)
                  eq_refl [CallHash JUndefined; CallParseAbbr other_bytes]
                  ltac:(repeat constructor)) as H.
    cbv zeta in H.
    destruct (result abbr (calls [CallHash JUndefined; CallParseAbbr other_bytes]
                sample_world_mutable)) as [data|e] eqn:Ha;
      [|vm_compute in Ha; discriminate Ha].
    exists data. split; [reflexivity | exact H].
Defined.

(** Full options pass the checks; an object without properties does
    not, and the error has no message. *)
Lemma parseOptions_checks_witness :
  (options_checked sample_options = true /\
   result (parseOptions sample_options) fresh_world = Ok tt) /\
  (options_checked (JObject ∅) = false /\
   exists msg, parseOptions (JObject ∅) fresh_world =
                 (Throw (AssertionError msg), fresh_world)).
Proof.
  assert (H1 : options_checked sample_options = true) by (vm_compute; reflexivity).
  assert (H2 : options_checked (JObject ∅) = false) by (vm_compute; reflexivity).
  split; split; [exact H1 | | exact H2 | ].
  - exact (proj1 (proj2 (parseOptions_checks sample_options fresh_world) H1)).
  - destruct (proj1 (parseOptions_checks (JObject ∅) fresh_world) H2) as (msg & E & _).
    exists msg. exact E.
Defined.

(** The sample meets its target, and [verify()] with the inherited body
    check then throws. *)
Lemma verifyBody_abstract_throws_witness :
  result verifyPOW sample_world = Ok true /\
  result (verify verifyBody) sample_world = Throw (Error "Abstract method.").
Proof.
  assert (Hpow : result verifyPOW sample_world = Ok true) by (vm_compute; reflexivity).
  split; [exact Hpow|].
  exact (proj2 (proj2 (verifyBody_abstract_throws sample_world)) Hpow).
Defined.

(** A failed [verify()] of the sample with [bits] zero keeps the
    header. *)
Lemma verify_false_effects_witness :
  result (verify headers_verifyBody) sample_world_no_pow = Ok false /\
  same_header (this (after verifyPOW sample_world_no_pow)) sample_block_no_pow.
Proof.
  assert (Hf : result (verify headers_verifyBody) sample_world_no_pow = Ok false)
    by (vm_compute; reflexivity).
  split; [exact Hf|].
  exact (proj1 (proj2 (verify_false_effects sample_world_no_pow headers_verifyBody Hf))).
Defined.

(** With no binding of [options] in scope, well-formed arguments are of
    no help. *)
Lemma parseJSON_ignores_its_argument_witness :
  (∅ : gmap string JsVal) !! "options" = None /\
  parseJSON ∅ sample_options fresh_world =
    (Throw (ReferenceError "options"), fresh_world).
Proof.
  assert (Hs : (∅ : gmap string JsVal) !! "options" = None) by reflexivity.
  split; [exact Hs|].
  exact (proj2 (parseJSON_ignores_its_argument ∅ sample_options JNull fresh_world) Hs).
Defined.

(** A deep refresh of the sample refreshes its two transactions; a
    shallow one leaves them; a deep one of an entity without
    transactions logs nothing. *)
Lemma refresh_clears_caches_witness :
  (truthy (JBool true) = true /\ txs sample_block = Some [true; true] /\
   txs (this (after (refresh (JBool true)) sample_world)) = Some [false; false] /\
   events (after (refresh (JBool true)) sample_world) = [EvTxRefresh 0; EvTxRefresh 1]) /\
  (truthy JUndefined = false /\
   txs (this (after (refresh JUndefined) sample_world)) = Some [true; true]) /\
  (txs (this fresh_world) = None /\
   events (after (refresh (JBool true)) fresh_world) = []).
Proof.
  split; [|split].
  - split; [reflexivity|]. split; [reflexivity|].
    exact (proj1 (proj2 (proj2 (proj2 (proj2
             (refresh_clears_caches (JBool true) sample_world)))))
             [true; true] eq_refl eq_refl).
  - split; [reflexivity|].
    exact (proj1 (proj2 (proj2 (proj2 (proj2 (proj2 (proj2
             (refresh_clears_caches JUndefined sample_world)))))) eq_refl)).
  - split; [reflexivity|].
    exact (proj2 (proj1 (proj2 (proj2 (proj2 (proj2 (proj2
             (refresh_clears_caches (JBool true) fresh_world)))))) eq_refl)).
Defined.

(** The bytes of the other header, a valid one, are decoded into the
    sample after its [hash()]: the decoding returns, the version is the
    other header's and no more the sample's, the cache is as it was, and
    [hash()] still returns the digest of the sample. *)
Lemma parseAbbr_keeps_caches_witness :
  exists data,
    result abbr sample_world = Ok data /\
    valid_header other_block = true /\ result abbr other_world = Ok other_bytes /\
    let w := after (hash JUndefined) sample_world in
    let w' := after (parseAbbr other_bytes) w in
    result (parseAbbr other_bytes) w = Ok [] /\
    same_header (this w') other_block /\
    version (this w) = JNum 2 /\ version (this w') = JNum 3 /\
    same_caches (this w') (this w) /\
    hash JUndefined w' = (Ok (JBuffer (sample_digest data)), w').
Proof.
  destruct (result abbr sample_world) as [data|e] eqn:Ha;
    [|vm_compute in Ha; discriminate Ha].
  exists data. split; [reflexivity|].
  assert (Hv : valid_header (this other_world) = true) by (vm_compute; reflexivity).
  assert (Hb : result abbr other_world = Ok other_bytes) by (vm_compute; reflexivity).
  split; [exact Hv|]. split; [exact Hb|]. cbv zeta.
  destruct (parseAbbr_keeps_caches other_bytes (after (hash JUndefined) sample_world))
    as (Hc & Hw & _ & Hs).
  destruct (Hw other_world Hv Hb) as [Hr Hh].
  split; [exact Hr|]. split; [exact Hh|].
  split; [vm_compute; reflexivity|].
  split; [destruct Hh as [Hver _]; rewrite Hver; reflexivity|].
  split; [exact Hc|].
  exact (Hs sample_world data eq_refl eq_refl Ha eq_refl).
Defined.

(** C4 as stated does not hold. An entity is built from options and
    its hash is taken. Given new options that make it mutable and change
    its nonce, the now mutable entity returns from [hash()] the digest of
    the old serialization, not of the current one, and the digest is not
    called. Given instead new options that change its nonce, and
    refreshed, the still immutable entity returns from [hash()] another
    digest than it did before. *)
Lemma hash_stale_or_renewed_counterexample :
  let w1 := after (parseOptions sample_options) fresh_world in
  let w2 := after (hash JUndefined) w1 in
  (let w3 := after (parseOptions sample_options_mutable) w2 in
   mutable (this w3) = true /\
   nonce (this w1) = JNum 7 /\ nonce (this w3) = JNum 8 /\
   exists old new,
     result abbr w1 = Ok old /\ result abbr w3 = Ok new /\
     result (hash JUndefined) w3 = Ok (JBuffer (sample_digest old)) /\
     sample_digest old <> sample_digest new /\
     events (after (hash JUndefined) w3) = events w3) /\
  (let w3 := after (refresh JUndefined) (after (parseOptions sample_options_renonced) w2) in
   mutable (this w1) = false /\ mutable (this w3) = false /\
   exists first later,
     result (hash JUndefined) w1 = Ok first /\
     result (hash JUndefined) w3 = Ok later /\
     first <> later).
Proof.
  cbv zeta. split.
  - split; [vm_compute; reflexivity|].
    split; [vm_compute; reflexivity|].
    split; [vm_compute; reflexivity|].
    destruct (result abbr (after (parseOptions sample_options) fresh_world))
      as [old|e] eqn:Hold; [|vm_compute in Hold; discriminate Hold].
    destruct (result abbr (after (parseOptions sample_options_mutable)
                (after (hash JUndefined) (after (parseOptions sample_options) fresh_world))))
      as [new|e] eqn:Hnew; [|vm_compute in Hnew; discriminate Hnew].
    exists old, new.
    split; [reflexivity|]. split; [reflexivity|].
    vm_compute in Hold. injection Hold as <-.
    vm_compute in Hnew. injection Hnew as <-.
    split; [vm_compute; reflexivity|].
    split; [intros E; vm_compute in E; discriminate E|].
    vm_compute; reflexivity.
  - split; [vm_compute; reflexivity|].
    split; [vm_compute; reflexivity|].
    eexists. eexists.
    split; [vm_compute; reflexivity|].
    split; [vm_compute; reflexivity|].
    intros E. discriminate E.
Qed.

(** C5 as stated does not hold. Options whose hash fields are strings
    that are no digests, and that name neither the outpoint nor the
    signature, are accepted: the entity built from them is not a valid
    header. And the error for options without a version names no
    field. *)
Lemma parseOptions_accepts_malformed_counterexample :
  let w' := after (parseOptions sloppy_options) fresh_world in
  result (parseOptions sloppy_options) fresh_world = Ok tt /\
  prevHash (this w') = JStr "zz" /\ is_hash (prevHash (this w')) = false /\
  outpointhash (this w') = JUndefined /\ blocksig (this w') = JUndefined /\
  valid_header (this w') = false /\
  parseOptions (JObject ∅) fresh_world = (Throw (AssertionError None), fresh_world).
Proof.
  cbv zeta. repeat split; vm_compute; reflexivity.
Qed.

(** C7 as stated does not hold. [verify()] of the immutable sample
    with [bits] zero returns false, and the slot [_hash], empty before
    the call, holds a digest after it. *)
Lemma verify_false_fills_cache_counterexample :
  let w' := after (verify headers_verifyBody) sample_world_no_pow in
  result (verify headers_verifyBody) sample_world_no_pow = Ok false /\
  _hash (this sample_world_no_pow) = JNull /\
  (exists digest, _hash (this w') = JBuffer digest) /\
  _hash (this w') <> _hash (this sample_world_no_pow).
Proof.
  cbv zeta. split; [vm_compute; reflexivity|]. split; [reflexivity|].
  split; [eexists; vm_compute; reflexivity|].
  intros E. vm_compute in E. discriminate E.
Qed.

End Examples.

(* ===================================================================== *)
(** * The further properties at concrete inputs                           *)
(* ===================================================================== *)

Section MoreExamples.

Import Samples.

(** The immutable and the mutable sample have the same header, hence the
    same bytes and the same hash. *)
Lemma hash_depends_on_header_only_witness :
  same_header sample_block sample_block_mutable /\
  result abbr sample_world = result abbr sample_world_mutable /\
  result (hash JUndefined) sample_world = result (hash JUndefined) sample_world_mutable.
Proof.
  assert (Hs : same_header (this sample_world) (this sample_world_mutable))
    by (unfold same_header; cbn; repeat split).
  split; [exact Hs|].
  destruct (hash_depends_on_header_only sample_world sample_world_mutable Hs) as [H1 H2].
  split; [exact H1 | exact (H2 eq_refl eq_refl)].
Defined.

(** The bytes of the sample followed by two more bytes: the header is
    decoded and the two bytes are left. *)
Lemma parseAbbr_leaves_trailing_bytes_witness :
  valid_header sample_block = true /\
  exists data w',
    result abbr sample_world = Ok data /\
    parseAbbr (data ++ [x01; x02]) fresh_world = (Ok [x01; x02], w') /\
    same_header (this w') sample_block.
Proof.
  assert (Hv : valid_header (this sample_world) = true) by (vm_compute; reflexivity).
  split; [exact Hv|].
  exact (parseAbbr_leaves_trailing_bytes sample_world fresh_world [x01; x02] Hv).
Defined.

(** The immutable and the mutable sample have the same bytes, and the
    same header. *)
Lemma abbr_injective_witness :
  valid_header sample_block = true /\ valid_header sample_block_mutable = true /\
  result abbr sample_world = result abbr sample_world_mutable /\
  same_header sample_block sample_block_mutable.
Proof.
  assert (H1 : valid_header (this sample_world) = true) by (vm_compute; reflexivity).
  assert (H2 : valid_header (this sample_world_mutable) = true) by (vm_compute; reflexivity).
  assert (H3 : result abbr sample_world = result abbr sample_world_mutable)
    by (vm_compute; reflexivity).
  split; [exact H1|]. split; [exact H2|]. split; [exact H3|].
  exact (abbr_injective sample_world sample_world_mutable H1 H2 H3).
Defined.

(** The bytes of the sample without the last one are refused. *)
Lemma parseAbbr_rejects_truncated_witness :
  valid_header sample_block = true /\
  exists data,
    result abbr sample_world = Ok data /\ (183 < length data)%nat /\
    exists e, result (parseAbbr (take 183 data)) fresh_world = Throw e.
Proof.
  assert (Hv : valid_header (this sample_world) = true) by (vm_compute; reflexivity).
  split; [exact Hv|].
  destruct (parseAbbr_rejects_truncated sample_world Hv) as (data & Ha & Hp).
  assert (Hl : (183 < length data)%nat).
  { vm_compute in Ha. injection Ha as <-. vm_compute. lia. }
  exists data. split; [exact Ha|]. split; [exact Hl|].
  exact (Hp fresh_world 183%nat Hl).
Defined.

(** One byte: nothing happens but the throw. Five bytes: the version is
    read, then the previous hash cannot be. *)
Lemma parseAbbr_assigns_as_it_reads_witness :
  ((length [x05] < 4)%nat /\
   exists e, parseAbbr [x05] fresh_world = (Throw e, fresh_world)) /\
  ((4 <= length [x05; x00; x00; x00; x01])%nat /\
   (exists e, result (parseAbbr [x05; x00; x00; x00; x01]) fresh_world = Throw e) /\
   version (this fresh_world) = JNum 1 /\
   version (this (after (parseAbbr [x05; x00; x00; x00; x01]) fresh_world)) = JNum 5).
Proof.
  split.
  - assert (Hl : (length [x05] < 4)%nat) by (cbn; lia).
    split; [exact Hl|].
    exact (proj1 (parseAbbr_assigns_as_it_reads [x05] fresh_world) Hl).
  - assert (Hl : (4 <= length [x05; x00; x00; x00; x01])%nat) by (cbn; lia).
    split; [exact Hl|]. split; [eexists; vm_compute; reflexivity|].
    split; [reflexivity|].
    exact (proj2 (parseAbbr_assigns_as_it_reads [x05; x00; x00; x00; x01] fresh_world) Hl).
Defined.

(** The sample after some uses. *)
Lemma caches_stay_consistent_witness :
  caches_consistent sample_block /\
  caches_consistent
    (this (uses [UseToInv; UseCall (CallParseAbbr other_bytes); UseRhash;
                 UseCall (CallRefresh JNull); UseCall (CallHash JUndefined)]
                sample_world)).
Proof.
  assert (Hc : caches_consistent (this sample_world)) by (left; split; reflexivity).
  split; [exact Hc|].
  exact (proj1 (caches_stay_consistent
                  [UseToInv; UseCall (CallParseAbbr other_bytes); UseRhash;
                   UseCall (CallRefresh JNull); UseCall (CallHash JUndefined)]
                  sample_world) Hc).
Defined.

(** The hex form and the binary form of the hash of the sample. *)
Lemma hash_hex_agrees_with_hash_witness :
  caches_consistent sample_block /\
  exists x d,
    result (hash (JStr "hex")) sample_world = Ok x /\ x = JStr (hex_encode d) /\
    result (hash JUndefined) (after (hash (JStr "hex")) sample_world) = Ok (JBuffer d).
Proof.
  assert (Hc : caches_consistent (this sample_world)) by (left; split; reflexivity).
  split; [exact Hc|].
  destruct (result (hash (JStr "hex")) sample_world) as [x|e] eqn:Hx;
    [|vm_compute in Hx; discriminate Hx].
  destruct (hash_hex_agrees_with_hash sample_world x Hc Hx) as (d & E & Hd).
  exists x, d. split; [reflexivity|]. split; [exact E | exact Hd].
Defined.

(** The sample, hashed, then refreshed: the next [hash()] calls the
    digest again. A new entity, refreshed: [hash()] throws as it did
    before. *)
Lemma refresh_then_hash_recomputes_witness :
  (exists data,
     result abbr (after (hash JUndefined) sample_world) = Ok data /\
     let w1 := after (refresh JNull) (after (hash JUndefined) sample_world) in
     result (hash JUndefined) w1 = Ok (JBuffer (sample_digest data)) /\
     events (after (hash JUndefined) w1) = [EvHash256 data; EvHash256 data]) /\
  hash JUndefined (after (refresh JNull) fresh_world) =
    (Throw (TypeError "writeString: not a string"), after (refresh JNull) fresh_world).
Proof.
  split.
  - pose proof (refresh_then_hash_recomputes JNull (after (hash JUndefined) sample_world))
      as H.
    cbv zeta in H.
    destruct (result abbr (after (hash JUndefined) sample_world)) as [data|e] eqn:Ha;
      [|vm_compute in Ha; discriminate Ha].
    exists data. split; [reflexivity|]. cbv zeta. split.
    + unfold result. rewrite H. reflexivity.
    + unfold after at 1. rewrite H. cbn [snd events].
      vm_compute in Ha. injection Ha as <-. vm_compute. reflexivity.
  - pose proof (refresh_then_hash_recomputes JNull fresh_world) as H.
    cbv zeta in H.
    assert (Ha : result abbr fresh_world = Throw (TypeError "writeString: not a string"))
      by (vm_compute; reflexivity).
    rewrite Ha in H. exact H.
Defined.

(** The sample meets its target. After its hash was taken and a header
    with a target of zero was decoded into it, the checker is asked
    about the digest of the sample and the new [bits], and says no. *)
Lemma verifyPOW_after_decoding_witness :
  exists data,
    result abbr sample_world = Ok data /\
    result verifyPOW sample_world = Ok true /\
    let w := after (parseAbbr rebits_bytes) (after (hash JUndefined) sample_world) in
    bits (this w) = JNum 1 /\
    result verifyPOW w =
      Ok (sample_verifyPOW (JBuffer (sample_digest data)) (JNum 1)) /\
    result verifyPOW w = Ok false.
Proof.
  destruct (result abbr sample_world) as [data|e] eqn:Ha;
    [|vm_compute in Ha; discriminate Ha].
  exists data. split; [reflexivity|]. split; [vm_compute; reflexivity|].
  destruct (verifyPOW_after_decoding sample_world data rebits_bytes eq_refl eq_refl Ha)
    as [H1 H2].
  cbv zeta in *.
  assert (Hb : bits (this (after (parseAbbr rebits_bytes)
                 (after (hash JUndefined) sample_world))) = JNum 1).
  { rewrite (H2 rebits_world); [reflexivity | vm_compute; reflexivity
                               | vm_compute; reflexivity]. }
  split; [exact Hb|]. split.
  - unfold result. rewrite H1. cbn [fst]. rewrite Hb. reflexivity.
  - vm_compute. reflexivity.
Defined.

(** A new entity has no signature, and cannot be serialized: every
    method that needs the hash throws, and the entity stays as it is. *)
Lemma abbr_failure_propagates_witness :
  truthy (_hash (this fresh_world)) = false /\
  result abbr fresh_world = Throw (TypeError "writeString: not a string") /\
  verifyPOW fresh_world = (Throw (TypeError "writeString: not a string"), fresh_world) /\
  verify headers_verifyBody fresh_world =
    (Throw (TypeError "writeString: not a string"), fresh_world).
Proof.
  assert (Ha : result abbr fresh_world = Throw (TypeError "writeString: not a string"))
    by (vm_compute; reflexivity).
  split; [reflexivity|]. split; [exact Ha|].
  destruct (abbr_failure_propagates fresh_world _ eq_refl Ha) as (_ & H2 & H3 & _).
  split; [exact H2 | exact (H3 headers_verifyBody)].
Defined.

(** With the sample options bound to [options] in scope, [parseJSON] of
    [null] builds the entity the options describe. *)
Lemma parseJSON_reads_outer_options_witness :
  let scope : gmap string JsVal := <["options" := sample_options]> ∅ in
  scope !! "options" = Some sample_options /\
  result (parseJSON scope JNull) fresh_world = Ok tt /\
  nonce (this (after (parseJSON scope JNull) fresh_world)) = JNum 7.
Proof.
  cbv zeta.
  assert (Hs : (<["options" := sample_options]> ∅ : gmap string JsVal) !! "options"
               = Some sample_options) by (vm_compute; reflexivity).
  split; [exact Hs|].
  unfold result, after.
  rewrite (parseJSON_reads_outer_options _ JNull sample_options fresh_world Hs).
  split; vm_compute; reflexivity.
Defined.

(** Six uses of the immutable sample, one call of the digest. *)
Lemma digest_called_at_most_once_witness :
  let us := [UseCall (CallHash JUndefined); UseToInv; UseRhash;
             UseCall CallVerifyPOW; UseCall (CallParseAbbr other_bytes);
             UseCall (CallHash (JStr "hex"))] in
  mutable (this sample_world) = false /\
  Forall (fun u => is_plain_use u = true) us /\
  (digest_calls (events (uses us sample_world)) <= 1)%nat.
Proof.
  cbv zeta.
  assert (Hus : Forall (fun u => is_plain_use u = true)
                  [UseCall (CallHash JUndefined); UseToInv; UseRhash;
                   UseCall CallVerifyPOW; UseCall (CallParseAbbr other_bytes);
                   UseCall (CallHash (JStr "hex"))]) by (repeat constructor).
  split; [reflexivity|]. split; [exact Hus|].
  exact (proj1 (digest_called_at_most_once _ sample_world eq_refl Hus)).
Defined.

(** The inventory item and the reversed hash of the sample. *)
Lemma toInv_and_rhash_name_the_hash_witness :
  caches_consistent sample_block /\
  (exists item d,
     result toInv sample_world = Ok item /\
     item = new_InvItem (JNum 2) (JStr (hex_encode d)) /\
     result (hash JUndefined) (after toInv sample_world) = Ok (JBuffer d)) /\
  (exists r d,
     result rhash sample_world = Ok r /\
     util_revHex (JStr (hex_encode d)) = Ok r /\
     result (hash JUndefined) (after rhash sample_world) = Ok (JBuffer d)).
Proof.
  assert (Hc : caches_consistent (this sample_world)) by (left; split; reflexivity).
  split; [exact Hc|].
  destruct (toInv_and_rhash_name_the_hash sample_world Hc) as [H1 H2].
  split.
  - destruct (result toInv sample_world) as [item|e] eqn:Hi;
      [|vm_compute in Hi; discriminate Hi].
    destruct (H1 item eq_refl) as (d & E & Hd).
    exists item, d. split; [reflexivity|]. split; [exact E | exact Hd].
  - destruct (result rhash sample_world) as [r|e] eqn:Hr;
      [|vm_compute in Hr; discriminate Hr].
    destruct (H2 r eq_refl) as (d & E & Hd).
    exists r, d. split; [reflexivity|]. split; [exact E | exact Hd].
Defined.

(** [hash('HEX')] of the sample is [hash()] of the sample. *)
Lemma hash_binary_unless_hex_witness :
  JStr "HEX" <> JStr "hex" /\
  hash (JStr "HEX") sample_world = hash JUndefined sample_world /\
  _hhash (this (after (hash (JStr "HEX")) sample_world)) = JNull.
Proof.
  assert (Hne : JStr "HEX" <> JStr "hex") by discriminate.
  split; [exact Hne|].
  exact (hash_binary_unless_hex (JStr "HEX") sample_world Hne).
Defined.

End MoreExamples.
